(** * simboraa-agente: the ERP integration agent

    A shallow embedding of the two variants of the agent kept in the
    repository:

    - [V1] is [src/agente.js]: a polling loop over a fixed five second
      window and an order endpoint without request validation;
    - [V2] is [src/unnamed/part_000]: the same agent with a persisted
      cursor ([cursor.json]), request validation and a locking read for
      the allocation of order identifiers.

    The store (SQL Server through [mssql]), the file system, the clock and
    the outbound HTTP client are the environment: each call the agent
    makes to them is a function of an explicit state or an explicit
    answer.  Tables are lists of rows, a transaction works on a copy of
    the durable tables, JavaScript numbers are binary64 floats and
    JavaScript strings sequences of UTF-16 code units.  A statement
    sent to the store is answered or rejected, as the connection says,
    and the parameter types of the driver, whose code is not in the
    repository, are parameters of the connection.

    Part I is the agent, Part II the vocabulary of the properties and
    the stores and requests of the examples, Part III the properties. *)

From Stdlib Require Import ZArith List String Ascii Bool Lia QArith Qround Floats.
Import ListNotations.

Set Warnings "-inexact-float".
Local Open Scope string_scope.
Local Open Scope list_scope.
Local Open Scope Z_scope.

(* ================================================================== *)
(** * Part I.  The agent *)
(* ================================================================== *)

(** ** JavaScript values *)

Module JS.

(** A [Date] is its time value in milliseconds since the epoch; [None] is
    the Invalid Date (time value NaN). *)
Definition Date : Type := option Z.

(** TimeClip of ECMAScript on an integral number of milliseconds. *)
Definition TimeClip (t : Z) : Date :=
  if Z.abs t <=? 8640000000000000 then Some t else None.

(** The primitive values of a JSON document.  A string is kept as what
    [Date.parse] makes of it ([None] for NaN): the agent does nothing else
    with the strings of [cursor.json]. *)
Inductive json_prim : Type :=
| JNull
| JBool (b : bool)
| JNum (n : Z)
| JStr (parsed : option Z).

(** What [JSON.parse] returns for the text of [cursor.json]: a primitive
    or an object whose members are primitives (a [lastSync] that is
    itself an object or an array is left out, and so is an array at the
    top). *)
Inductive json_doc : Type :=
| DPrim (p : json_prim)
| DObj (fields : list (string * json_prim)).

Fixpoint lookup_field (k : string) (fields : list (string * json_prim))
  : option json_prim :=
  match fields with
  | [] => None
  | (k', v) :: rest => if String.eqb k k' then Some v else lookup_field k rest
  end.

(** [data.lastSync]: reading a property of [null] throws a TypeError
    (the outer [None]); a property that is not there is [undefined] (the
    inner [None]). *)
Definition get_lastSync (data : json_doc) : option (option json_prim) :=
  match data with
  | DPrim JNull => None
  | DPrim _ => Some None
  | DObj fields => Some (lookup_field "lastSync" fields)
  end.

(** [new Date(v)] for [v] undefined or a JSON primitive. *)
Definition new_Date (v : option json_prim) : Date :=
  match v with
  | None => None
  | Some JNull => Some 0
  | Some (JBool b) => Some (if b then 1 else 0)
  | Some (JNum n) => TimeClip n
  | Some (JStr parsed) => parsed
  end.

(** [JSON.stringify({ lastSync: date.toISOString() })], as the document it
    parses back to: [Date.parse] of an ISO string is the time value it
    came from. *)
Definition cursor_document (t : Z) : json_doc :=
  DObj [("lastSync", JStr (Some t))].

(** A JavaScript string is a sequence of UTF-16 code units; [length]
    and [substring] count those. *)
Definition js_string : Type := list Z.

(** The string of a literal written in ASCII: one unit per character. *)
Definition units (s : string) : js_string :=
  map (fun a => Z.of_N (N_of_ascii a)) (list_ascii_of_string s).

End JS.

(** ** The file system, as far as [cursor.json] goes *)

Module FS.

(** The text of the file, by what [JSON.parse] does with it. *)
Inductive content : Type :=
| NotJSON
| Parses (d : JS.json_doc).

Record fs : Type := mkfs {
  cursor_file : option content;   (* [None]: [fs.existsSync] is false *)
  readable : bool;                (* [fs.readFileSync] does not throw *)
  writable : bool                 (* [fs.writeFileSync] does not throw *)
}.

End FS.

(** ** Rows of the store *)

(** The schema is not part of the repository.  The columns the queries
    test for NULL or read with ISNULL are nullable here ([option]), and
    so is DATA_ALTERACAO, which a product never altered may lack; the
    others are taken to hold a value.  Integer and timestamp columns are
    integers (timestamps in milliseconds, on the scale of the JavaScript
    clock), stocks and the prices of the catalog are integers of their
    smallest unit, and CBARRA compares as plain text. *)

Module Store.

(** PRODUTOS: the product master table. *)
Record produto : Type := mkproduto {
  P_CODIGO : Z;
  P_CBARRA : option string;
  P_NOME : string;
  P_PCO_VENDA : Z;
  P_DATA_ALTERACAO : option Z
}.

(** PRODLOJAS: one row per product and location. *)
Record prodloja : Type := mkprodloja {
  L_CODIGO : Z;
  L_EST_ATUAL : Z;
  L_PCO_VENDA : Z
}.

(** ORCPERSON: the order headers.  A column filled from a parameter
    holds what the driver bound: NOME the string bound as [sql.VarChar]
    (what the collation of the column makes of it is not modelled), the
    totals the MONEY bound as [sql.Money], in ten-thousandths. *)
Record orcperson : Type := mkorcperson {
  O_CODIGO : option Z;
  O_CODLOJA : Z;
  O_EMISSAO : Z;
  O_NOME : JS.js_string;
  O_CODVENDEDOR : Z;
  O_TOTALBRUTO : Z;
  O_TOTALLIQUIDO : Z;
  O_OBSERVACAO : string;
  O_NOMEUSUARIO : string;
  O_SEQUENCIA : option Z
}.

(** ORCPERSONI: the order lines; QUANTIDADE is bound as [sql.Float],
    UNITARIO and VLTOTAL as [sql.Money]. *)
Record orcpersoni : Type := mkorcpersoni {
  I_CODIGOI : Z;
  I_CODPRODUTO : Z;
  I_DESCRICAO : string;
  I_QUANTIDADE : float;
  I_UNITARIO : Z;
  I_VLTOTAL : Z;
  I_DATA : Z;
  I_ITEM : Z
}.

Record tables : Type := mktables {
  PRODUTOS : list produto;
  PRODLOJAS : list prodloja;
  ORCPERSON : list orcperson;
  ORCPERSONI : list orcpersoni
}.

End Store.

(** ** The change detection query *)

Module Detect.
Import Store.

(** One row of the recordset sent to the site. *)
Record update : Type := mkupdate {
  sku : string;
  name : string;
  total_stock : Z;
  price : Z
}.

(** [FROM PRODUTOS P INNER JOIN PRODLOJAS L ON P.CODIGO = L.CODIGO]. *)
Definition joined (db : tables) : list (produto * prodloja) :=
  flat_map
    (fun p => map (pair p)
                (filter (fun l => P_CODIGO p =? L_CODIGO l) (PRODLOJAS db)))
    (PRODUTOS db).

(** [P.CBARRA IS NOT NULL AND P.CBARRA <> '']. *)
Definition has_sku (p : produto) : bool :=
  match P_CBARRA p with
  | Some s => negb (String.eqb s "")
  | None => false
  end.

(** The key of [GROUP BY P.CBARRA] for a row that passed [has_sku]. *)
Definition key (r : produto * prodloja) : string :=
  match P_CBARRA (fst r) with
  | Some s => s
  | None => ""
  end.

(** [CASE WHEN L.EST_ATUAL < 0 THEN 0 ELSE L.EST_ATUAL END]. *)
Definition clamp (est : Z) : Z := if est <? 0 then 0 else est.

Definition sum (l : list Z) : Z := fold_right Z.add 0 l.

Definition max_string (a b : string) : string :=
  if String.leb a b then b else a.

(** MAX over the rows of a group; a group is never empty, the default is
    only there to make the function total. *)
Definition MAX {A : Type} (mx : A -> A -> A) (default : A) (l : list A) : A :=
  match l with
  | [] => default
  | x :: rest => fold_left mx rest x
  end.

Definition group (k : string) (rows : list (produto * prodloja))
  : list (produto * prodloja) :=
  filter (fun r => String.eqb (key r) k) rows.

(** The SELECT list over one group. *)
Definition aggregate (k : string) (rows : list (produto * prodloja)) : update :=
  let g := group k rows in
  {| sku := k;
     name := MAX max_string "" (map (fun r => P_NOME (fst r)) g);
     total_stock := sum (map (fun r => clamp (L_EST_ATUAL (snd r))) g);
     price := MAX Z.max 0 (map (fun r => L_PCO_VENDA (snd r)) g) |}.

(** [SELECT ... GROUP BY P.CBARRA] over the rows that passed WHERE. *)
Definition select_grouped (rows : list (produto * prodloja)) : list update :=
  map (fun k => aggregate k rows) (nodup string_dec (map key rows)).

End Detect.

(** ** The outbound publish and the answers of the store *)

Module Net.

(** How an [axios.post] ends: a response with its status, or no response
    (connection refused, timeout).  axios rejects on every status outside
    200..299. *)
Inductive http_result : Type :=
| HttpResponse (status : Z)
| HttpNoResponse (code : string).

Definition axios_resolves (r : http_result) : bool :=
  match r with
  | HttpResponse status => (200 <=? status) && (status <? 300)
  | HttpNoResponse _ => false
  end.

(** How [pool.request().query(...)] ends. *)
Inductive query_result : Type :=
| Recordset (rows : list Detect.update)
| QueryError (message : string).

End Net.

(** ** Transactions *)

Module Tx.
Import Store.

(** The statements a handler sends to the store, in the order sent. *)
Inductive op : Type :=
| Begin
| SelectProduto (sku : string)
| SelectNextIds (locking : bool)
| InsertOrcperson (row : orcperson)
| InsertOrcpersoni (row : orcpersoni)
| Commit
| Rollback
| SelectEstoque (sku : string).

(** The parameter types of the driver ([sql.Int], [sql.Float] and
    [sql.Money] of mssql, validated by tedious when a request is
    executed).  Their code is not in the repository, so a connection
    carries them: [sql_Int v] and [sql_Float x] are the error of the
    validation when the value is refused (a value that passes is bound
    as it is), [sql_Money x] is the MONEY bound for the number [x], in
    ten-thousandths, or the error of the validation.  [sql.VarChar] binds a
    string as it is and a value of another type by its text. *)
Record driver : Type := mkdriver {
  sql_Int : Z -> option string;
  sql_Float : float -> option string;
  sql_Money : float -> Z + string
}.

(** A connection to the store as one request has it: the durable
    tables, the working copy of the transaction the request has open,
    the statements sent so far, the server clock read by the n-th
    statement (GETDATE()), the error the n-th statement is rejected
    with when the store does not answer it (a server error, a timeout,
    no connection left in the pool), and the driver. *)
Record conn : Type := mkconn {
  durable : tables;
  active : option tables;
  log : list op;
  getdate : nat -> Z;
  rejects : nat -> option string;
  types : driver
}.

(** What a statement sees: the working copy inside a transaction. *)
Definition current (c : conn) : tables :=
  match active c with
  | Some t => t
  | None => durable c
  end.

Definition sent (o : op) (c : conn) : conn :=
  {| durable := durable c; active := active c;
     log := log c ++ [o]; getdate := getdate c;
     rejects := rejects c; types := types c |}.

Definition write (t : tables) (c : conn) : conn :=
  match active c with
  | Some _ =>
      {| durable := durable c; active := Some t;
         log := log c; getdate := getdate c;
         rejects := rejects c; types := types c |}
  | None =>
      {| durable := t; active := None; log := log c; getdate := getdate c;
         rejects := rejects c; types := types c |}
  end.

(** A computation inside [try { ... }]: it returns or throws, and leaves
    a connection behind either way. *)
Inductive outcome (A : Type) : Type :=
| Ok (a : A)
| Thrown (message : string).
Arguments Ok {A} a.
Arguments Thrown {A} message.

Definition M (A : Type) : Type := conn -> outcome A * conn.

Definition ret {A : Type} (a : A) : M A := fun c => (Ok a, c).

Definition throw {A : Type} (message : string) : M A :=
  fun c => (Thrown message, c).

Definition bind {A B : Type} (m : M A) (k : A -> M B) : M B :=
  fun c =>
    match m c with
    | (Ok a, c') => k a c'
    | (Thrown message, c') => (Thrown message, c')
    end.

Notation "x <- m ;; k" := (bind m (fun x => k))
  (at level 61, m at next level, right associativity).
Notation "m ;;; k" := (bind m (fun _ => k))
  (at level 61, right associativity).

(** An awaited statement [o]: it is sent, and the store answers it, with
    the effect [done], or rejects it, and the promise throws. *)
Definition await {A : Type} (o : op) (done : conn -> A * conn) : M A :=
  fun c =>
    match rejects c (List.length (log c)) with
    | Some message => (Thrown message, sent o c)
    | None => let (a, c') := done c in (Ok a, sent o c')
    end.

(** [await transaction.begin()]: a transaction of its own, on a
    connection the pool hands out. *)
Definition begin : M unit :=
  await Begin
    (fun c =>
       (tt,
        {| durable := durable c; active := Some (durable c);
           log := log c; getdate := getdate c;
           rejects := rejects c; types := types c |})).

(** [await transaction.commit()]. *)
Definition commit : M unit :=
  await Commit
    (fun c =>
       (tt,
        {| durable := current c; active := None;
           log := log c; getdate := getdate c;
           rejects := rejects c; types := types c |})).

(** [await transaction.rollback()]. *)
Definition rollback (c : conn) : conn :=
  {| durable := durable c; active := None;
     log := log c ++ [Rollback]; getdate := getdate c;
     rejects := rejects c; types := types c |}.

(** [transaction.active], the guard of the rollback in [catch].  The
    Transaction of mssql has no property of that name, so the read
    gives [undefined] whether a transaction is open or not. *)
Definition transaction_active (c : conn) : bool := false.

(** [if (transaction.active) await transaction.rollback()]. *)
Definition rollback_if_active (c : conn) : conn :=
  if transaction_active c then rollback c else c.

(** [SELECT TOP 1 CODIGO, NOME ... FROM PRODUTOS WHERE CBARRA = @sku]:
    the recordset has one row or none. *)
Definition produto_by_sku (sku : string) (rows : list produto) : list produto :=
  firstn 1
    (filter
       (fun p =>
          match P_CBARRA p with
          | Some s => String.eqb s sku
          | None => false
          end)
       rows).

Definition select_produto (sku : string) : M (list produto) :=
  await (SelectProduto sku)
    (fun c => (produto_by_sku sku (PRODUTOS (current c)), c)).

(** MAX of a nullable column: NULLs are skipped, no row gives NULL. *)
Definition sql_max (col : list (option Z)) : option Z :=
  fold_left
    (fun acc x =>
       match acc, x with
       | None, _ => x
       | Some a, None => Some a
       | Some a, Some b => Some (Z.max a b)
       end)
    col None.

Definition ISNULL (x : option Z) (d : Z) : Z :=
  match x with
  | Some v => v
  | None => d
  end.

(** [ISNULL(MAX(CODIGO), 0) + 1, ISNULL(MAX(SEQUENCIA), 0) + 1]. *)
Definition next_ids (rows : list orcperson) : Z * Z :=
  (ISNULL (sql_max (map O_CODIGO rows)) 0 + 1,
   ISNULL (sql_max (map O_SEQUENCIA rows)) 0 + 1).

(** The allocation query; [locking] is [WITH (UPDLOCK, HOLDLOCK)]. *)
Definition select_next_ids (locking : bool) : M (Z * Z) :=
  await (SelectNextIds locking)
    (fun c => (next_ids (ORCPERSON (current c)), c)).

(** [.input(name, sql.Int, v)], [.input(name, sql.Float, x)] and
    [.input(name, sql.Money, x)].  The driver validates the parameters
    when the request is executed, in the order of the [.input] calls; a
    value it refuses rejects the query, and nothing is sent. *)
Definition input_Int (v : Z) : M Z :=
  fun c =>
    match sql_Int (types c) v with
    | Some message => (Thrown message, c)
    | None => (Ok v, c)
    end.

Definition input_Float (x : float) : M float :=
  fun c =>
    match sql_Float (types c) x with
    | Some message => (Thrown message, c)
    | None => (Ok x, c)
    end.

Definition input_Money (x : float) : M Z :=
  fun c =>
    match sql_Money (types c) x with
    | inl bound => (Ok bound, c)
    | inr message => (Thrown message, c)
    end.

(** [INSERT INTO ORCPERSON ... VALUES (@id, 1, GETDATE(), @nome, 1,
    @total, @total, 'PEDIDO VIA SITE', ..., @seq)] with [@id] and [@seq]
    bound as [sql.Int], [@nome] as [sql.VarChar] and [@total] as
    [sql.Money]; [row] is the row of the VALUES list, by the bound
    parameters and the server clock. *)
Definition insert_orcperson (row : Z -> Z -> JS.js_string -> Z -> Z -> orcperson)
  (id seq : Z) (nome : JS.js_string) (total : float) : M unit :=
  id <- input_Int id ;;
  seq <- input_Int seq ;;
  total <- input_Money total ;;
  fun c =>
    let r := row id seq nome total (getdate c (List.length (log c))) in
    await (InsertOrcperson r)
      (fun c =>
         let t := current c in
         (tt,
          write {| PRODUTOS := PRODUTOS t; PRODLOJAS := PRODLOJAS t;
                   ORCPERSON := ORCPERSON t ++ [r];
                   ORCPERSONI := ORCPERSONI t |} c))
      c.

(** [INSERT INTO ORCPERSONI ... VALUES (@idPedido, @idProd, @desc, @qtd,
    @preco, @total, GETDATE(), @itemNum)] with [@idPedido], [@idProd] and
    [@itemNum] bound as [sql.Int], [@desc] as [sql.VarChar], [@qtd] as
    [sql.Float], [@preco] and [@total] as [sql.Money]. *)
Definition insert_orcpersoni (idPedido idProd : Z) (desc : string)
  (qtd preco total : float) (itemNum : Z) : M unit :=
  idPedido <- input_Int idPedido ;;
  idProd <- input_Int idProd ;;
  qtd <- input_Float qtd ;;
  preco <- input_Money preco ;;
  total <- input_Money total ;;
  itemNum <- input_Int itemNum ;;
  fun c =>
    let r :=
      {| I_CODIGOI := idPedido;
         I_CODPRODUTO := idProd;
         I_DESCRICAO := desc;
         I_QUANTIDADE := qtd;
         I_UNITARIO := preco;
         I_VLTOTAL := total;
         I_DATA := getdate c (List.length (log c));
         I_ITEM := itemNum |} in
    await (InsertOrcpersoni r)
      (fun c =>
         let t := current c in
         (tt,
          write {| PRODUTOS := PRODUTOS t; PRODLOJAS := PRODLOJAS t;
                   ORCPERSON := ORCPERSON t;
                   ORCPERSONI := ORCPERSONI t ++ [r] |} c))
      c.

End Tx.

(** ** Order requests and replies *)

Module Orders.
Import JS Store Tx.
Local Open Scope float_scope.

(** An element of [itens]. *)
Record item : Type := mkitem {
  sku : string;
  qtd : float;
  preco : float
}.

(** A value of the body where the handlers expect a string: a string,
    or a value of another type of JSON (a number, a boolean, null, an
    object, an array), of which the handlers test the truthiness and the
    driver binds the text ([toString()]). *)
Inductive value : Type :=
| Str (s : js_string)
| Other (truthy : bool) (text : js_string).

(** [cliente]; [nome] is [None] when the property is not there. *)
Record customer : Type := mkcustomer {
  nome : option value
}.

(** [request.body]; [None] is a property that is undefined. *)
Record body : Type := mkbody {
  cliente : option customer;
  itens : option (list item)
}.

(** An item after the lookup loop set [codigoInterno] and [descricao]. *)
Record resolved : Type := mkresolved {
  source : item;
  codigoInterno : Z;
  descricao : string
}.

Inductive payload : Type :=
| Created (pedidoId : Z)                      (* { success: true, pedidoId } *)
| Failed (error : string) (detalhe : option string).

Record response : Type := mkresponse {
  code : Z;
  sent_body : payload
}.

(** The body of the first loop over [itens]; [not_found] is the text of
    the error before the sku, the one thing the variants do not share. *)
Definition resolve (not_found : string) (it : item) : M resolved :=
  prod <- select_produto (sku it) ;;
  match prod with
  | [] => throw (not_found ++ sku it)
  | p :: _ =>
      ret {| source := it; codigoInterno := P_CODIGO p; descricao := P_NOME p |}
  end.

Fixpoint resolve_all (not_found : string) (its : list item) : M (list resolved) :=
  match its with
  | [] => ret []
  | it :: rest =>
      r <- resolve not_found it ;;
      rs <- resolve_all not_found rest ;;
      ret (r :: rs)
  end.

(** [itens.reduce((acc, i) => acc + (i.qtd * i.preco), 0)], the
    [totalPedido] of variant 2. *)
Definition totalPedido (its : list item) : float :=
  fold_left (fun acc i => acc + (qtd i * preco i)) its 0.

(** The loop over [itens] that inserts the lines. *)
Fixpoint insert_lines (novoId : Z) (contadorItem : Z) (its : list resolved)
  : M unit :=
  match its with
  | [] => ret tt
  | it :: rest =>
      insert_orcpersoni novoId (codigoInterno it) (descricao it)
        (qtd (source it)) (preco (source it))
        (qtd (source it) * preco (source it)) contadorItem ;;;
      insert_lines novoId (contadorItem + 1)%Z rest
  end.

(** The truthiness of a value: a string is truthy when it is not empty,
    a property that is not there is [undefined]. *)
Definition truthy (v : option value) : bool :=
  match v with
  | Some (Str []) => false
  | Some (Str (_ :: _)) => true
  | Some (Other t _) => t
  | None => false
  end.

End Orders.

(** ** Suspended calls of the event loop *)

Module EventLoop.

(** An [async] function runs until its next [await] and is resumed when
    the awaited call ends; the calls that have not ended are kept in a
    list, and an event names the one it resumes by its position. *)
Fixpoint remove_nth {A : Type} (i : nat) (l : list A) : list A :=
  match l, i with
  | [], _ => []
  | _ :: rest, O => rest
  | x :: rest, S j => x :: remove_nth j rest
  end.

Fixpoint replace_nth {A : Type} (i : nat) (y : A) (l : list A) : list A :=
  match l, i with
  | [], _ => []
  | _ :: rest, O => y :: rest
  | x :: rest, S j => x :: replace_nth j y rest
  end.

End EventLoop.

(** ** Variant 1: [src/agente.js] *)

Module V1.
Import JS Store Detect Net Tx Orders EventLoop.

(** *** The monitor *)

(** [P.DATA_ALTERACAO >= DATEADD(second, -5, GETDATE())]. *)
Definition changed_recently (getdate : Z) (r : produto * prodloja) : bool :=
  match P_DATA_ALTERACAO (fst r) with
  | Some t => getdate - 5000 <=? t
  | None => false
  end.

(** The joined rows that pass WHERE; [getdate] is the server clock. *)
Definition matching (getdate : Z) (db : tables) : list (produto * prodloja) :=
  filter (fun r => changed_recently getdate r && has_sku (fst r)) (joined db).

(** The query of [monitorarMudancas]. *)
Definition detect (getdate : Z) (db : tables) : list update :=
  select_grouped (matching getdate db).

(** One call of [monitorarMudancas] read top to bottom: the batches it
    posts. *)
Definition monitorarMudancas (connected : bool) (answer : query_result)
  : list (list update) :=
  if negb connected then []
  else
    match answer with
    | QueryError _ => []
    | Recordset rows => if (0 <? List.length rows)%nat then [rows] else []
    end.

(** The calls of [monitorarMudancas] that are waiting. *)
Inductive suspended : Type :=
| AwaitQuery
| AwaitPost (batch : list update).

Record agent : Type := mkagent {
  connected : bool;
  in_flight : list suspended
}.

Inductive event : Type :=
| Tick                                         (* [setInterval] fires *)
| QueryDone (i : nat) (answer : query_result)
| PostDone (i : nat) (answer : http_result).

Definition step (a : agent) (e : event) : agent :=
  match e with
  | Tick =>
      if negb (connected a) then a
      else {| connected := connected a;
              in_flight := in_flight a ++ [AwaitQuery] |}
  | QueryDone i answer =>
      match nth_error (in_flight a) i with
      | Some AwaitQuery =>
          match answer with
          | Recordset rows =>
              if (0 <? List.length rows)%nat
              then {| connected := connected a;
                      in_flight := replace_nth i (AwaitPost rows) (in_flight a) |}
              else {| connected := connected a;
                      in_flight := remove_nth i (in_flight a) |}
          | QueryError _ =>
              {| connected := connected a;
                 in_flight := remove_nth i (in_flight a) |}
          end
      | _ => a
      end
  | PostDone i _ =>
      match nth_error (in_flight a) i with
      | Some (AwaitPost _) =>
          {| connected := connected a;
             in_flight := remove_nth i (in_flight a) |}
      | _ => a
      end
  end.

Definition run (a : agent) (es : list event) : agent := fold_left step es a.

(** *** POST /criar-pedido *)

(** [throw new Error(`Produto não encontrado: ${item.sku}`)]. *)
Definition not_found : string := "Produto não encontrado: ".

(** [cliente.nome || 'CLIENTE E-COMMERCE'], as [sql.VarChar] binds it: a
    string as it is, a truthy value of another type by its text. *)
Definition customer_name (c : customer) : js_string :=
  match nome c with
  | Some (Str s) => if truthy (Some (Str s)) then s else units "CLIENTE E-COMMERCE"
  | Some (Other t text) =>
      if truthy (Some (Other t text)) then text else units "CLIENTE E-COMMERCE"
  | None => units "CLIENTE E-COMMERCE"
  end.

(** The row of the INSERT INTO ORCPERSON, by its parameters and the
    server clock. *)
Definition header (novoId novaSeq : Z) (nm : js_string) (total : Z)
  (now : Z) : orcperson :=
  {| O_CODIGO := Some novoId;
     O_CODLOJA := 1;
     O_EMISSAO := now;
     O_NOME := nm;
     O_CODVENDEDOR := 1;
     O_TOTALBRUTO := total;
     O_TOTALLIQUIDO := total;
     O_OBSERVACAO := "PEDIDO VIA SITE";
     O_NOMEUSUARIO := "SITE";
     O_SEQUENCIA := Some novaSeq |}.

(** The body of [try]: [for (let item of itens)] throws a TypeError when
    [itens] is undefined, and so does [cliente.nome] when [cliente] is
    (the messages are V8's). *)
Definition try_block (cli : option customer) (its : option (list item)) : M Z :=
  begin ;;;
  match its with
  | None => throw "itens is not iterable"
  | Some l =>
      rs <- resolve_all not_found l ;;
      ids <- select_next_ids false ;;
      match cli with
      | None => throw "Cannot read properties of undefined (reading 'nome')"
      | Some c =>
          insert_orcperson header (fst ids) (snd ids) (customer_name c)
            (totalPedido l) ;;;
          insert_lines (fst ids) 1 rs ;;;
          commit ;;;
          ret (fst ids)
      end
  end.

(** The handler: [pool_connected] is [pool && pool.connected]. *)
Definition criar_pedido (pool_connected : bool) (b : body) (c : conn)
  : response * conn :=
  if negb pool_connected
  then ({| code := 503; sent_body := Failed "Banco Offline" None |}, c)
  else
    match try_block (cliente b) (itens b) c with
    | (Ok novoId, c') => ({| code := 200; sent_body := Created novoId |}, c')
    | (Thrown message, c') =>
        ({| code := 500;
            sent_body := Failed "Erro ao gravar pedido" (Some message) |},
         rollback_if_active c')
    end.

End V1.

(** ** Variant 2: [src/unnamed/part_000] *)

Module V2.
Import JS FS Store Detect Net Tx Orders EventLoop.

(** *** The cursor *)

Definition getLastSyncTime (now : Z) (f : fs) : Date :=
  match cursor_file f with
  | None => Some (now - 60000)
  | Some text =>
      if negb (readable f) then Some (now - 60000)
      else
        match text with
        | NotJSON => Some (now - 60000)
        | Parses data =>
            match get_lastSync data with
            | None => Some (now - 60000)
            | Some v => new_Date v
            end
        end
  end.

Definition updateLastSyncTime (date : Z) (f : fs) : fs :=
  if writable f
  then {| cursor_file := Some (Parses (cursor_document date));
          readable := readable f;
          writable := writable f |}
  else f.

(** *** The monitor *)

(** [P.DATA_ALTERACAO > @lastCheck]. *)
Definition changed_since (lastCheck : Z) (r : produto * prodloja) : bool :=
  match P_DATA_ALTERACAO (fst r) with
  | Some t => lastCheck <? t
  | None => false
  end.

(** The joined rows that pass WHERE. *)
Definition matching (lastCheck : Z) (db : tables) : list (produto * prodloja) :=
  filter (fun r => changed_since lastCheck r && has_sku (fst r)) (joined db).

(** The query of [monitorarMudancas]. *)
Definition detect (lastCheck : Z) (db : tables) : list update :=
  select_grouped (matching lastCheck db).

(** What one call of [monitorarMudancas] meets: the clock read by
    [getLastSyncTime], the clock read by [new Date()], the answer of the
    store to the query and the answer of the site to the post. *)
Record world : Type := mkworld {
  clock_default : Z;
  clock_start : Z;
  run_query : Date -> query_result;
  run_post : list update -> http_result
}.

(** One call of [monitorarMudancas] read top to bottom: the file system
    it leaves. *)
Definition monitorarMudancas (w : world) (connected : bool) (f : fs) : fs :=
  if negb connected then f
  else
    let lastCheck := getLastSyncTime (clock_default w) f in
    let newCheckTime := clock_start w in
    match run_query w lastCheck with
    | QueryError _ => f
    | Recordset rows =>
        if (0 <? List.length rows)%nat
        then
          if axios_resolves (run_post w rows)
          then updateLastSyncTime newCheckTime f
          else f
        else updateLastSyncTime newCheckTime f
    end.

(** The calls of [monitorarMudancas] that are waiting, with the locals
    they hold. *)
Inductive suspended : Type :=
| AwaitQuery (lastCheck : Date) (newCheckTime : Z)
| AwaitPost (newCheckTime : Z) (batch : list update).

Record agent : Type := mkagent {
  connected : bool;
  disk : fs;
  in_flight : list suspended
}.

Inductive event : Type :=
| Tick (clock_default clock_start : Z)          (* [setInterval] fires *)
| QueryDone (i : nat) (answer : query_result)
| PostDone (i : nat) (answer : http_result).

Definition step (a : agent) (e : event) : agent :=
  match e with
  | Tick t0 t1 =>
      if negb (connected a) then a
      else {| connected := connected a;
              disk := disk a;
              in_flight :=
                in_flight a ++ [AwaitQuery (getLastSyncTime t0 (disk a)) t1] |}
  | QueryDone i answer =>
      match nth_error (in_flight a) i with
      | Some (AwaitQuery _ newCheckTime) =>
          match answer with
          | Recordset rows =>
              if (0 <? List.length rows)%nat
              then {| connected := connected a;
                      disk := disk a;
                      in_flight :=
                        replace_nth i (AwaitPost newCheckTime rows)
                          (in_flight a) |}
              else {| connected := connected a;
                      disk := updateLastSyncTime newCheckTime (disk a);
                      in_flight := remove_nth i (in_flight a) |}
          | QueryError _ =>
              {| connected := connected a;
                 disk := disk a;
                 in_flight := remove_nth i (in_flight a) |}
          end
      | _ => a
      end
  | PostDone i answer =>
      match nth_error (in_flight a) i with
      | Some (AwaitPost newCheckTime _) =>
          if axios_resolves answer
          then {| connected := connected a;
                  disk := updateLastSyncTime newCheckTime (disk a);
                  in_flight := remove_nth i (in_flight a) |}
          else {| connected := connected a;
                  disk := disk a;
                  in_flight := remove_nth i (in_flight a) |}
      | _ => a
      end
  end.

Definition run (a : agent) (es : list event) : agent := fold_left step es a.

(** *** POST /criar-pedido *)

(** [throw new Error(`Produto não encontrado ou inativo: ${item.sku}`)]. *)
Definition not_found : string := "Produto não encontrado ou inativo: ".

(** [cliente.nome ? cliente.nome.substring(0, 50) : 'CLIENTE WEB']: the
    first 50 code units of a string; a truthy value of another type has
    no [substring], and the call throws a TypeError (the message is
    V8's). *)
Definition customer_name (c : customer) : M js_string :=
  match nome c with
  | Some (Str s) =>
      if truthy (Some (Str s)) then ret (firstn 50 s) else ret (units "CLIENTE WEB")
  | Some (Other t text) =>
      if truthy (Some (Other t text))
      then throw "cliente.nome.substring is not a function"
      else ret (units "CLIENTE WEB")
  | None => ret (units "CLIENTE WEB")
  end.

(** The row of the INSERT INTO ORCPERSON, by its parameters and the
    server clock. *)
Definition header (novoId novaSeq : Z) (nm : js_string) (total : Z)
  (now : Z) : orcperson :=
  {| O_CODIGO := Some novoId;
     O_CODLOJA := 1;
     O_EMISSAO := now;
     O_NOME := nm;
     O_CODVENDEDOR := 1;
     O_TOTALBRUTO := total;
     O_TOTALLIQUIDO := total;
     O_OBSERVACAO := "PEDIDO VIA SITE";
     O_NOMEUSUARIO := "INTEGRACAO";
     O_SEQUENCIA := Some novaSeq |}.

(** The body of [try], entered with [cliente] and a non-empty [itens]. *)
Definition try_block (cli : customer) (its : list item) : M Z :=
  begin ;;;
  rs <- resolve_all not_found its ;;
  ids <- select_next_ids true ;;
  nm <- customer_name cli ;;
  insert_orcperson header (fst ids) (snd ids) nm (totalPedido its) ;;;
  insert_lines (fst ids) 1 rs ;;;
  commit ;;;
  ret (fst ids).

(** [!cliente || !itens || itens.length === 0]. *)
Definition invalid (b : body) : bool :=
  match cliente b, itens b with
  | Some _, Some (_ :: _) => false
  | _, _ => true
  end.

(** The handler: [pool_connected] is [pool && pool.connected]. *)
Definition criar_pedido (pool_connected : bool) (b : body) (c : conn)
  : response * conn :=
  if negb pool_connected
  then ({| code := 503; sent_body := Failed "Banco Offline" None |}, c)
  else
    match cliente b, itens b with
    | Some cli, Some (it :: rest) =>
        match try_block cli (it :: rest) c with
        | (Ok novoId, c') =>
            ({| code := 200; sent_body := Created novoId |}, c')
        | (Thrown message, c') =>
            ({| code := 422;
                sent_body :=
                  Failed "Não foi possível processar o pedido" (Some message) |},
             rollback_if_active c')
        end
    | _, _ =>
        ({| code := 400;
            sent_body :=
              Failed "Dados inválidos (cliente ou itens ausentes)" None |},
         c)
    end.

End V2.

(** ** Concurrent requests of POST /criar-pedido *)

Module Concurrent.
Import JS Store Tx Orders.

Inductive variant : Type :=
| Agente        (* [src/agente.js]: a plain read of the maxima *)
| Part000.      (* [src/unnamed/part_000]: WITH (UPDLOCK, HOLDLOCK) *)

Definition locking (v : variant) : bool :=
  match v with
  | Agente => false
  | Part000 => true
  end.

Definition header (v : variant) : Z -> Z -> js_string -> Z -> Z -> orcperson :=
  match v with
  | Agente => V1.header
  | Part000 => V2.header
  end.

(** Where a request stands between its statements on ORCPERSON.  [seen]
    is the committed table of the moment the request began; it is kept
    for the statements below and never read by the handler. *)
Inductive phase : Type :=
| Waiting
| Begun (seen : list orcperson)
| Allocated (seen : list orcperson) (novoId novaSeq : Z)
| Inserted (seen : list orcperson) (novoId novaSeq : Z) (row : orcperson)
| Committed (seen : list orcperson) (novoId novaSeq : Z)
| RolledBack.

(** The committed ORCPERSON, the request holding the lock taken by the
    locking read (released when its transaction ends), and the requests. *)
Record system : Type := mksystem {
  table : list orcperson;
  lock : option nat;
  phases : nat -> phase
}.

Definition initial (rows : list orcperson) : system :=
  {| table := rows; lock := None; phases := fun _ => Waiting |}.

Definition set_phase (t : nat) (p : phase) (f : nat -> phase) : nat -> phase :=
  fun u => if Nat.eqb u t then p else f u.

(** The lock after the transaction of [t] ended. *)
Definition release (t : nat) (l : option nat) : option nat :=
  match l with
  | Some u => if Nat.eqb u t then None else Some u
  | None => None
  end.

(** One statement of one request. *)
Inductive action : Type :=
| Start (t : nat)                  (* [transaction.begin()] *)
| Allocate (t : nat)               (* the query of the next ids *)
| InsertHeader (t : nat) (nm : js_string) (total : Z) (now : Z)
| CommitTx (t : nat)
| Fail (t : nat).                  (* the transaction ends without a commit *)

(** [None]: the statement cannot run now (the request is not at that
    point, or its locking read waits for the lock). *)
Definition exec (v : variant) (s : system) (a : action) : option system :=
  match a with
  | Start t =>
      match phases s t with
      | Waiting =>
          Some {| table := table s; lock := lock s;
                  phases := set_phase t (Begun (table s)) (phases s) |}
      | _ => None
      end
  | Allocate t =>
      match phases s t with
      | Begun seen =>
          let ids := next_ids (table s) in
          if locking v
          then
            match lock s with
            | None =>
                Some {| table := table s; lock := Some t;
                        phases :=
                          set_phase t (Allocated seen (fst ids) (snd ids))
                            (phases s) |}
            | Some _ => None
            end
          else
            Some {| table := table s; lock := lock s;
                    phases :=
                      set_phase t (Allocated seen (fst ids) (snd ids))
                        (phases s) |}
      | _ => None
      end
  | InsertHeader t nm total now =>
      match phases s t with
      | Allocated seen novoId novaSeq =>
          Some {| table := table s; lock := lock s;
                  phases :=
                    set_phase t
                      (Inserted seen novoId novaSeq
                         (header v novoId novaSeq nm total now))
                      (phases s) |}
      | _ => None
      end
  | CommitTx t =>
      match phases s t with
      | Inserted seen novoId novaSeq row =>
          Some {| table := table s ++ [row]; lock := release t (lock s);
                  phases := set_phase t (Committed seen novoId novaSeq) (phases s) |}
      | _ => None
      end
  | Fail t =>
      match phases s t with
      | Begun _ | Allocated _ _ _ | Inserted _ _ _ _ =>
          Some {| table := table s; lock := release t (lock s);
                  phases := set_phase t RolledBack (phases s) |}
      | _ => None
      end
  end.

Fixpoint exec_all (v : variant) (s : system) (l : list action) : option system :=
  match l with
  | [] => Some s
  | a :: rest =>
      match exec v s a with
      | Some s' => exec_all v s' rest
      | None => None
      end
  end.

(** The states some interleaving of the requests reaches. *)
Definition reachable (v : variant) (rows : list orcperson) (s : system) : Prop :=
  exists l, exec_all v (initial rows) l = Some s.

End Concurrent.

(** ** The other routes: GET /checar-estoque/:sku, GET /health, the hook *)

Module Routes.
Import Store Detect Tx Orders.

(** What a route sends. *)
Inductive sent : Type :=
| StockReply (sku : string) (estoque : Z)       (* { sku, estoque } *)
| HealthReply (db : string)                     (* { status: 'ok', db } *)
| ErrorReply (error : string) (message : option string)
| OrderReply (p : payload).

Record reply : Type := mkreply {
  status : Z;
  json : sent
}.

(** [WHERE P.CBARRA = @sku]. *)
Definition carries (sku : string) (r : produto * prodloja) : bool :=
  match P_CBARRA (fst r) with
  | Some s => String.eqb s sku
  | None => false
  end.

(** SUM of a column that holds values: NULL over no row. *)
Definition SUM (col : list Z) : option Z :=
  match col with
  | [] => None
  | _ :: _ => Some (sum col)
  end.

(** [SELECT SUM(CASE WHEN EST_ATUAL < 0 THEN 0 ELSE EST_ATUAL END) as
    estoque FROM PRODUTOS P INNER JOIN PRODLOJAS L ON P.CODIGO = L.CODIGO
    WHERE P.CBARRA = @sku]: the one row of an aggregate without GROUP BY. *)
Definition estoque_query (sku : string) (db : tables) : option Z :=
  SUM (map (fun r => clamp (L_EST_ATUAL (snd r)))
         (filter (carries sku) (joined db))).

(** [result.recordset[0]?.estoque || 0]. *)
Definition or_zero (estoque : option Z) : Z :=
  match estoque with
  | Some n => if n =? 0 then 0 else n
  | None => 0
  end.

(** The handler of GET /checar-estoque/:sku in [src/agente.js]; [fault]
    is the message of the error the query ends with, if it does. *)
Definition V1_checar_estoque (pool_connected : bool) (sku : string)
  (fault : option string) (db : tables) : reply :=
  if negb pool_connected
  then {| status := 503; json := ErrorReply "Banco Offline" None |}
  else
    match fault with
    | Some message => {| status := 500; json := ErrorReply message None |}
    | None =>
        {| status := 200;
           json := StockReply sku (or_zero (estoque_query sku db)) |}
    end.

(** The handler of GET /checar-estoque/:sku in [src/unnamed/part_000]. *)
Definition V2_checar_estoque (pool_connected : bool) (sku : string)
  (fault : option string) (db : tables) : reply :=
  if negb pool_connected
  then {| status := 503; json := ErrorReply "Banco Offline" None |}
  else
    match fault with
    | Some _ =>
        {| status := 500;
           json := ErrorReply "Erro interno ao consultar estoque" None |}
    | None =>
        {| status := 200;
           json := StockReply sku (or_zero (estoque_query sku db)) |}
    end.

(** The handler of GET /health ([src/unnamed/part_000] only). *)
Definition health (pool_connected : bool) : reply :=
  {| status := 200;
     json := HealthReply (if pool_connected then "connected" else "disconnected") |}.

(** A request of variant 2: its route and its Authorization header. *)
Inductive route : Type :=
| GetHealth
| GetChecarEstoque (sku : string)
| PostCriarPedido (b : body).

Record request : Type := mkrequest {
  line : route;
  authorization : option string
}.

(** [`Bearer ${AGENT_TOKEN}`]; an environment variable that is not set
    is [undefined], and prints as such. *)
Definition bearer (AGENT_TOKEN : option string) : string :=
  "Bearer " ++ match AGENT_TOKEN with
               | Some token => token
               | None => "undefined"
               end.

(** The [onRequest] hook: [Some] is the reply it sends, [None] lets the
    request go on to its handler. *)
Definition onRequest (AGENT_TOKEN : option string) (r : request) : option reply :=
  match line r with
  | GetHealth => None
  | _ =>
      let denied :=
        {| status := 401;
           json := ErrorReply "Acesso Negado" (Some "Token inválido ou ausente") |} in
      match authorization r with
      | None => Some denied
      | Some authHeader =>
          if String.eqb authHeader "" || negb (String.eqb authHeader (bearer AGENT_TOKEN))
          then Some denied
          else None
      end
  end.

(** The life of a request of variant 2: the hook, then the handler of
    the route unless the hook replied. *)
Definition serve (AGENT_TOKEN : option string) (pool_connected : bool)
  (fault : option string) (r : request) (c : conn) : reply * conn :=
  match onRequest AGENT_TOKEN r with
  | Some denied => (denied, c)
  | None =>
      match line r with
      | GetHealth => (health pool_connected, c)
      | GetChecarEstoque sku =>
          (V2_checar_estoque pool_connected sku fault (durable c),
           if pool_connected then Tx.sent (SelectEstoque sku) c else c)
      | PostCriarPedido b =>
          let (answer, c') := V2.criar_pedido pool_connected b c in
          ({| status := code answer; json := OrderReply (sent_body answer) |}, c')
      end
  end.

End Routes.

(** ** The start of the process: [conectarBanco] and [start] *)

Module Boot.

(** [pool] is [None] until [sql.connect] resolved; [connecting] counts
    the calls of [conectarBanco] waiting for [sql.connect], [retries]
    the [setTimeout(conectarBanco, 5000)] that have not fired;
    [monitor] tells whether [setInterval] was reached, [exited] holds
    the code of [process.exit]. *)
Record process : Type := mkprocess {
  pool : option bool;
  connecting : nat;
  retries : nat;
  listening : bool;
  monitor : bool;
  exited : option Z
}.

(** [pool && pool.connected], the guard of every handler and tick. *)
Definition pool_connected (p : process) : bool :=
  match pool p with
  | Some connected => connected
  | None => false
  end.

(** The end of the [await sql.connect(...)] of one call of
    [conectarBanco]: [pool] is set, or the retry is scheduled. *)
Definition connect_ends (ok : bool) (p : process) : process :=
  match connecting p with
  | O => p
  | S n =>
      if ok
      then {| pool := Some true; connecting := n; retries := retries p;
              listening := listening p; monitor := monitor p;
              exited := exited p |}
      else {| pool := pool p; connecting := n; retries := S (retries p);
              listening := listening p; monitor := monitor p;
              exited := exited p |}
  end.

(** A scheduled retry fires: [conectarBanco] is called again. *)
Definition retry_fires (p : process) : process :=
  match retries p with
  | O => p
  | S n =>
      {| pool := pool p; connecting := S (connecting p); retries := n;
         listening := listening p; monitor := monitor p; exited := exited p |}
  end.

(** [start]: the first [conectarBanco] is awaited (it resolves whether
    the store answered or not), then [fastify.listen]; the interval is
    set after a successful listen, a failed one exits with 1. *)
Definition start (connect_ok listen_ok : bool) : process :=
  let p :=
    connect_ends connect_ok
      {| pool := None; connecting := 1; retries := 0;
         listening := false; monitor := false; exited := None |} in
  if listen_ok
  then {| pool := pool p; connecting := connecting p; retries := retries p;
          listening := true; monitor := true; exited := None |}
  else {| pool := pool p; connecting := connecting p; retries := retries p;
          listening := false; monitor := false; exited := Some 1 |}.

(** What happens to the process after [start]. *)
Inductive event : Type :=
| ConnectEnds (ok : bool)
| RetryFires.

Definition step (p : process) (e : event) : process :=
  match exited p with
  | Some _ => p
  | None =>
      match e with
      | ConnectEnds ok => connect_ends ok p
      | RetryFires => retry_fires p
      end
  end.

Definition run (p : process) (es : list event) : process := fold_left step es p.

End Boot.

(** ** What the monitor of variant 2 sends *)

Module Outbox.
Import JS FS Detect Net.

(** The other effect of one call of [monitorarMudancas]: the batches it
    hands to [axios.post] as [{ updates: result.recordset }]. *)
Definition posts (w : V2.world) (connected : bool) (f : fs)
  : list (list update) :=
  if negb connected then []
  else
    match V2.run_query w (V2.getLastSyncTime (V2.clock_default w) f) with
    | QueryError _ => []
    | Recordset rows => if (0 <? List.length rows)%nat then [rows] else []
    end.

End Outbox.

(* ================================================================== *)
(** * Part II.  The terms the properties are stated in *)
(* ================================================================== *)

(** ** Terms for the cursor and the sync loop *)

Module SyncTerms.
Import JS FS Detect Net.

(** A file system on which every call on [cursor.json] succeeds. *)
Definition healthy (text : option content) : fs :=
  {| cursor_file := text; readable := true; writable := true |}.

(** Scenario (1) of the specification: nothing changed since the cursor. *)
Definition quiet : V2.world :=
  {| V2.clock_default := 1700000005000;
     V2.clock_start := 1700000005001;
     V2.run_query := fun _ => Recordset [];
     V2.run_post := fun _ => HttpNoResponse "ETIMEDOUT" |}.

(** A tick of variant 2, by the two clock readings of its call. *)
Definition tick (p : Z * Z) : V2.event := V2.Tick (fst p) (snd p).

(** The call that tick starts on the file system [f]. *)
Definition started (f : fs) (p : Z * Z) : V2.suspended :=
  V2.AwaitQuery (V2.getLastSyncTime (fst p) f) (snd p).

End SyncTerms.

(** ** Terms for the change detection query *)

Module DetectTerms.
Import Store Detect.

(** The per-location stocks summed into the row of sku [k]. *)
Definition stocks (k : string) (rows : list (produto * prodloja)) : list Z :=
  map (fun r => L_EST_ATUAL (snd r)) (group k rows).

(** Scenario (2) of the specification: two products, each with one
    location in the red. *)
Definition two_products : tables :=
  {| PRODUTOS :=
       [ {| P_CODIGO := 1; P_CBARRA := Some "789A"; P_NOME := "CAFE";
            P_PCO_VENDA := 100000; P_DATA_ALTERACAO := Some 2000 |};
         {| P_CODIGO := 2; P_CBARRA := Some "789B"; P_NOME := "ACUCAR";
            P_PCO_VENDA := 50000; P_DATA_ALTERACAO := Some 3000 |} ];
     PRODLOJAS :=
       [ {| L_CODIGO := 1; L_EST_ATUAL := 7; L_PCO_VENDA := 100000 |};
         {| L_CODIGO := 1; L_EST_ATUAL := -3; L_PCO_VENDA := 110000 |};
         {| L_CODIGO := 2; L_EST_ATUAL := -1; L_PCO_VENDA := 50000 |};
         {| L_CODIGO := 2; L_EST_ATUAL := 4; L_PCO_VENDA := 50000 |} ];
     ORCPERSON := [];
     ORCPERSONI := [] |}.

End DetectTerms.

(** ** Terms for POST /criar-pedido *)

Module OrderTerms.
Import JS Store Tx Orders.
Local Open Scope float_scope.

(** The lookup of one item in the tables [t]. *)
Definition found (t : tables) (it : item) : option resolved :=
  match produto_by_sku (sku it) (PRODUTOS t) with
  | [] => None
  | p :: _ =>
      Some {| source := it; codigoInterno := P_CODIGO p; descricao := P_NOME p |}
  end.

(** All items resolved, or the first that has no product. *)
Fixpoint found_all (t : tables) (its : list item) : list resolved + item :=
  match its with
  | [] => inl []
  | it :: rest =>
      match found t it with
      | None => inr it
      | Some r =>
          match found_all t rest with
          | inl rs => inl (r :: rs)
          | inr missing => inr missing
          end
      end
  end.

(** The skus the loop asks for before it ends. *)
Fixpoint asked (t : tables) (its : list item) : list string :=
  match its with
  | [] => []
  | it :: rest =>
      sku it :: match found t it with
                | None => []
                | Some _ => asked t rest
                end
  end.

(** The store answers every statement. *)
Definition answering (c : conn) : Prop := forall n, rejects c n = None.

(** What the driver accepts. *)
Definition takes_Int (d : driver) (v : Z) : bool :=
  match sql_Int d v with
  | None => true
  | Some _ => false
  end.

Definition takes_Float (d : driver) (x : float) : bool :=
  match sql_Float d x with
  | None => true
  | Some _ => false
  end.

Definition takes_Money (d : driver) (x : float) : bool :=
  match sql_Money d x with
  | inl _ => true
  | inr _ => false
  end.

(** The MONEY bound for a number the driver accepts. *)
Definition bound (d : driver) (x : float) : Z :=
  match sql_Money d x with
  | inl z => z
  | inr _ => 0%Z
  end.

(** The driver accepts the parameters of the header, of a line, and of
    the lines numbered from [n]. *)
Definition takes_header (d : driver) (id seq : Z) (total : float) : bool :=
  takes_Int d id && takes_Int d seq && takes_Money d total.

Definition takes_line (d : driver) (novoId n : Z) (it : resolved) : bool :=
  takes_Int d novoId && takes_Int d (codigoInterno it) &&
  takes_Float d (qtd (source it)) && takes_Money d (preco (source it)) &&
  takes_Money d (qtd (source it) * preco (source it)) && takes_Int d n.

Fixpoint takes_lines (d : driver) (novoId n : Z) (rs : list resolved) : bool :=
  match rs with
  | [] => true
  | it :: rest => takes_line d novoId n it && takes_lines d novoId (n + 1)%Z rest
  end.

(** The line inserted for an item. *)
Definition line_row (d : driver) (novoId n : Z) (it : resolved) (now : Z)
  : orcpersoni :=
  {| I_CODIGOI := novoId;
     I_CODPRODUTO := codigoInterno it;
     I_DESCRICAO := descricao it;
     I_QUANTIDADE := qtd (source it);
     I_UNITARIO := bound d (preco (source it));
     I_VLTOTAL := bound d (qtd (source it) * preco (source it));
     I_DATA := now;
     I_ITEM := n |}.

(** The lines of the second loop, the first statement of which is the
    [pos]-th of the connection. *)
Fixpoint line_rows (d : driver) (novoId n : Z) (rs : list resolved)
  (clock : nat -> Z) (pos : nat) : list orcpersoni :=
  match rs with
  | [] => []
  | it :: rest =>
      line_row d novoId n it (clock pos)
      :: line_rows d novoId (n + 1)%Z rest clock (S pos)
  end.

(** The tables with lines, or a header, appended. *)
Definition with_lines (t : tables) (rows : list orcpersoni) : tables :=
  {| PRODUTOS := PRODUTOS t; PRODLOJAS := PRODLOJAS t;
     ORCPERSON := ORCPERSON t; ORCPERSONI := ORCPERSONI t ++ rows |}.

Definition with_header (t : tables) (row : orcperson) : tables :=
  {| PRODUTOS := PRODUTOS t; PRODLOJAS := PRODLOJAS t;
     ORCPERSON := ORCPERSON t ++ [row]; ORCPERSONI := ORCPERSONI t |}.

(** The statements after the allocation: header, lines, commit. *)
Definition store_order
  (row : Z -> Z -> js_string -> Z -> Z -> orcperson) (novoId novaSeq : Z)
  (nm : js_string) (total : float) (rs : list resolved) : M Z :=
  insert_orcperson row novoId novaSeq nm total ;;;
  insert_lines novoId 1 rs ;;;
  commit ;;;
  ret novoId.

(** The connection a request for [its] leaves when it commits: [mk]
    builds the header from the server clock, [lk] tells whether the
    allocation read took the lock. *)
Definition committed (lk : bool) (mk : Z -> orcperson) (novoId : Z)
  (its : list item) (rs : list resolved) (c : conn) : conn :=
  let pos := (List.length (log c) + List.length its + 2)%nat in
  let hdr := mk (getdate c pos) in
  let lines := line_rows (types c) novoId 1 rs (getdate c) (S pos) in
  {| durable := with_lines (with_header (durable c) hdr) lines;
     active := None;
     log :=
       log c
       ++ Begin :: map SelectProduto (map sku its)
       ++ SelectNextIds lk :: InsertOrcperson hdr
       :: map InsertOrcpersoni lines ++ [Commit];
     getdate := getdate c;
     rejects := rejects c;
     types := types c |}.

(** The connection after a throw before any insert: the transaction is
    open on the tables as they were, and [ops] were sent. *)
Definition left_open (c : conn) (ops : list op) : conn :=
  {| durable := durable c; active := Some (durable c);
     log := log c ++ ops; getdate := getdate c;
     rejects := rejects c; types := types c |}.

(** [c'] is [c] after further statements of the transaction [c] has
    open: none of them took effect on the durable tables, none is a
    rollback, and the transaction is still open. *)
Definition still_open (c c' : conn) : Prop :=
  durable c' = durable c /\ active c' <> None /\
  exists ops, log c' = log c ++ ops /\ ~ In Rollback ops.

(** A computation that runs inside an open transaction and leaves it
    open, however it ends. *)
Definition inside_tx {A : Type} (m : M A) : Prop :=
  forall c o c', active c <> None -> m c = (o, c') -> still_open c c'.

(** A computation that leaves the transaction open when it throws. *)
Definition open_on_throw {A : Type} (m : M A) : Prop :=
  forall c message c',
    active c <> None -> m c = (Thrown message, c') -> still_open c c'.

(** The customer has a name the handlers can use as a string: it is
    absent, falsy, or a string. *)
Definition named_in_text (cli : customer) : bool :=
  match nome cli with
  | Some (Other true _) => false
  | _ => true
  end.

(** The name variant 2 binds for such a customer. *)
Definition V2_name (cli : customer) : js_string :=
  match nome cli with
  | Some (Str (u :: s)) => firstn 50 (u :: s)
  | _ => units "CLIENTE WEB"
  end.

(** The reply of the [catch] of either variant. *)
Definition V1_error (detalhe : string) : response :=
  {| code := 500; sent_body := Failed "Erro ao gravar pedido" (Some detalhe) |}.

Definition V2_error (detalhe : string) : response :=
  {| code := 422;
     sent_body := Failed "Não foi possível processar o pedido" (Some detalhe) |}.

(** The rational a finite float stands for (0 for the others). *)
Definition exact (f : float) : Q :=
  match Prim2SF f with
  | S754_finite s m e =>
      let z := if s then Z.neg m else Z.pos m in
      if (0 <=? e)%Z
      then inject_Z (z * 2 ^ e)
      else Qmake z (Pos.pow 2 (Z.to_pos (- e)))
  | _ => 0%Q
  end.

(** The amount a MONEY of [z] ten-thousandths stands for. *)
Definition amount (z : Z) : Q := Qmake z 10000.

(** The sum of quantity times unit price in exact arithmetic. *)
Definition exact_total (its : list item) : Q :=
  fold_left (fun acc i => (acc + exact (qtd i) * exact (preco i))%Q) its 0%Q.

(** A driver for the examples: [sql.Int] takes the 32-bit integers,
    [sql.Float] the numbers that are not NaN, [sql.Money] the numbers
    within the range of MONEY, bound with their ten-thousandths rounded
    down. *)
Definition example_driver : driver :=
  {| sql_Int :=
       fun v =>
         if ((v <? -2147483648) || (2147483647 <? v))%Z
         then Some "Value must be between -2147483648 and 2147483647, inclusive."
         else None;
     sql_Float :=
       fun x => if PrimFloat.is_nan x then Some "Invalid number." else None;
     sql_Money :=
       fun x =>
         if PrimFloat.is_nan x then inr "Invalid number."
         else if (x <? -922337203685477.6) || (922337203685477.6 <? x)
         then inr "Value must be between -922337203685477.5808 and 922337203685477.5807, inclusive."
         else inl (Qfloor (exact x * inject_Z 10000)) |}.

(** A small store to run the handlers on: two products, no order yet;
    every statement is answered. *)
Definition shop : conn :=
  {| durable :=
       {| PRODUTOS :=
            [ {| P_CODIGO := 10; P_CBARRA := Some "A"; P_NOME := "CAFE";
                 P_PCO_VENDA := 100000; P_DATA_ALTERACAO := Some 2000%Z |};
              {| P_CODIGO := 11; P_CBARRA := Some "B"; P_NOME := "ACUCAR";
                 P_PCO_VENDA := 50000; P_DATA_ALTERACAO := Some 3000%Z |} ];
          PRODLOJAS := [];
          ORCPERSON := [];
          ORCPERSONI := [] |};
     active := None;
     log := [];
     getdate := fun n => (1700000000000 + Z.of_nat n)%Z;
     rejects := fun _ => None;
     types := example_driver |}.

Definition ana : customer := {| nome := Some (Str (units "Ana")) |}.

(** Two items whose totals differ by more than binary64 can hold. *)
Definition large_and_small : list item :=
  [ {| sku := "A"; qtd := 1; preco := 500000000000000 |};
    {| sku := "B"; qtd := 1; preco := 0.01 |} ].

(** The columns of a header that the variants fill alike. *)
Definition same_but_texts (h1 h2 : orcperson) : Prop :=
  O_CODIGO h1 = O_CODIGO h2 /\ O_CODLOJA h1 = O_CODLOJA h2 /\
  O_EMISSAO h1 = O_EMISSAO h2 /\ O_CODVENDEDOR h1 = O_CODVENDEDOR h2 /\
  O_TOTALBRUTO h1 = O_TOTALBRUTO h2 /\ O_TOTALLIQUIDO h1 = O_TOTALLIQUIDO h2 /\
  O_OBSERVACAO h1 = O_OBSERVACAO h2 /\ O_SEQUENCIA h1 = O_SEQUENCIA h2.

End OrderTerms.

(** ** Terms for the allocation of order identifiers *)

Module AllocTerms.
Import JS Store Tx Orders Concurrent.

(** [id] and [seq] are above every CODIGO and SEQUENCIA of [rows]. *)
Definition above (rows : list orcperson) (id seq : Z) : Prop :=
  forall r, In r rows ->
    (forall k, O_CODIGO r = Some k -> k < id) /\
    (forall q, O_SEQUENCIA r = Some q -> q < seq).

(** One step of [sql_max]. *)
Definition max_step (acc x : option Z) : option Z :=
  match acc, x with
  | None, _ => x
  | Some a, None => Some a
  | Some a, Some b => Some (Z.max a b)
  end.

(** The ids a request holds between its allocation and its commit. *)
Definition pending (p : phase) : option (Z * Z) :=
  match p with
  | Allocated _ id seq | Inserted _ id seq _ => Some (id, seq)
  | _ => None
  end.

(** The header a request inserted carries the ids it was given. *)
Definition row_matches (p : phase) : Prop :=
  match p with
  | Inserted _ id seq row => O_CODIGO row = Some id /\ O_SEQUENCIA row = Some seq
  | _ => True
  end.

(** What a request saw when it began is still in the table. *)
Definition seen_within (p : phase) (tbl : list orcperson) : Prop :=
  match p with
  | Begun seen | Allocated seen _ _ | Inserted seen _ _ _ => incl seen tbl
  | _ => True
  end.

(** What every reachable state of variant 2 satisfies. *)
Record invariant (s : system) : Prop := mkinvariant {
  inv_lock : forall t, pending (phases s t) <> None -> lock s = Some t;
  inv_fresh : forall t ids, pending (phases s t) = Some ids ->
                ids = next_ids (table s);
  inv_row : forall t, row_matches (phases s t);
  inv_seen : forall t, seen_within (phases s t) (table s);
  inv_done : forall t seen id seq, phases s t = Committed seen id seq ->
               above seen id seq /\
               exists row, In row (table s) /\
                           O_CODIGO row = Some id /\ O_SEQUENCIA row = Some seq;
  inv_distinct : forall t u seen1 id1 seq1 seen2 id2 seq2,
               t <> u ->
               phases s t = Committed seen1 id1 seq1 ->
               phases s u = Committed seen2 id2 seq2 ->
               id1 <> id2 /\ seq1 <> seq2
}.

(** An ORCPERSON with one order. *)
Definition one_order : list orcperson :=
  [ V2.header 5 7 (units "Ana") 0 1690000000000 ].

(** The items of both requests: a total of 20, a MONEY of 200000
    ten-thousandths. *)
Definition two_A : list item :=
  [ {| sku := "A"; qtd := 2%float; preco := 10%float |} ].

(** Both requests read the maxima before either inserts. *)
Definition racing : list action :=
  [ Start 0; Start 1; Allocate 0; Allocate 1;
    InsertHeader 0 (units "Ana") 200000 1700000000000;
    InsertHeader 1 (units "Bia") 200000 1700000000001;
    CommitTx 0; CommitTx 1 ].

(** One request after the other. *)
Definition in_turn : list action :=
  [ Start 0; Start 1; Allocate 0;
    InsertHeader 0 (units "Ana") 200000 1700000000000; CommitTx 0;
    Allocate 1;
    InsertHeader 1 (units "Bia") 200000 1700000000001; CommitTx 1 ].

(** Where that schedule ends under variant 2. *)
Definition in_turn_end : system :=
  match exec_all Part000 (initial one_order) in_turn with
  | Some s => s
  | None => initial []
  end.

(** The statements of one request that commits, alone in the store. *)
Definition alone (nm : js_string) (total : Z) (now : Z) : list action :=
  [ Start 0; Allocate 0; InsertHeader 0 nm total now; CommitTx 0 ].

End AllocTerms.

(** ** Terms for the other routes and for the start of the process *)

Module RouteTerms.
Import Store Detect Tx Orders Routes.

(** The stocks of the locations of the products that carry [sku]. *)
Definition location_stocks (sku : string) (db : tables) : list Z :=
  map (fun r => L_EST_ATUAL (snd r)) (filter (carries sku) (joined db)).

(** The statements that only read. *)
Definition reads (o : op) : Prop :=
  match o with
  | SelectProduto _ | SelectNextIds _ | SelectEstoque _ => True
  | _ => False
  end.

(** The statements between [begin] and the end of a transaction. *)
Definition inside (o : op) : Prop :=
  match o with
  | Begin | Commit | Rollback => False
  | _ => True
  end.

(** An order for two units of "A", sent with the token "s3cret". *)
Definition order_request : request :=
  {| line :=
       PostCriarPedido
         {| cliente := Some OrderTerms.ana;
            itens := Some [ {| Orders.sku := "A"; qtd := 2%float;
                               preco := 10%float |} ] |};
     authorization := Some "Bearer s3cret" |}.

(** The handler of POST /criar-pedido of a variant. *)
Definition handler (v : Concurrent.variant)
  : bool -> body -> conn -> response * conn :=
  match v with
  | Concurrent.Agente => V1.criar_pedido
  | Concurrent.Part000 => V2.criar_pedido
  end.

(** Order requests served one after the other; each comes with the
    variant that serves it and the state of the pool, and begins a
    transaction of its own on the store the one before it left.  A
    request that throws inside [try] leaves its transaction open on the
    connection it took from the pool of ten; what that does to the
    requests after it (no connection left, locks held) is for [rejects]
    to say. *)
Fixpoint session (reqs : list (Concurrent.variant * bool * body)) (c : conn)
  : list response * conn :=
  match reqs with
  | [] => ([], c)
  | (v, pool_connected, b) :: rest =>
      let (answer, c1) := handler v pool_connected b c in
      let (answers, c2) := session rest c1 in
      (answer :: answers, c2)
  end.

(** The ids of the replies that report an order created. *)
Definition created_ids (answers : list response) : list Z :=
  flat_map
    (fun a =>
       match sent_body a with
       | Created id => [id]
       | Failed _ _ => []
       end)
    answers.

(** [first], [first + 1], ...: [n] numbers. *)
Definition counting (first : Z) (n : nat) : list Z :=
  map (fun k => first + Z.of_nat k) (seq 0 n).

(** What an order request leaves of the connection [c] it was given,
    whatever the store answers and the driver accepts: PRODUTOS and
    PRODLOJAS as they were; the durable tables as they were unless the
    reply is 200; no [rollback] among the statements sent; with a 200,
    [begin], statements and [commit], and no transaction open; without
    one, nothing sent at all (the connection is as it was), or [begin]
    and what follows it, and then, if [begin] was answered, the
    transaction is still open when the handler returns. *)
Definition transactional (c : conn) (r : response * conn) : Prop :=
  PRODUTOS (durable (snd r)) = PRODUTOS (durable c) /\
  PRODLOJAS (durable (snd r)) = PRODLOJAS (durable c) /\
  exists ops,
    log (snd r) = log c ++ ops /\
    ~ In Rollback ops /\
    (code (fst r) = 200 ->
     active (snd r) = None /\
     exists mid, ops = Begin :: mid ++ [Commit] /\ Forall inside mid) /\
    (code (fst r) <> 200 ->
     durable (snd r) = durable c /\
     (snd r = c \/
      exists rest,
        ops = Begin :: rest /\
        (rejects c (List.length (log c)) = None -> active (snd r) <> None))).

(** One connection attempt at a time, until one succeeds. *)
Definition one_attempt (p : Boot.process) : Prop :=
  (Boot.pool p = Some true /\ (Boot.connecting p + Boot.retries p = 0)%nat) \/
  (Boot.pool p = None /\ (Boot.connecting p + Boot.retries p = 1)%nat).

(** The reply of a route of variant 2 while the pool is not connected. *)
Definition offline (l : route) : reply :=
  match l with
  | GetHealth => {| status := 200; json := HealthReply "disconnected" |}
  | GetChecarEstoque _ =>
      {| status := 503; json := ErrorReply "Banco Offline" None |}
  | PostCriarPedido _ =>
      {| status := 503; json := OrderReply (Failed "Banco Offline" None) |}
  end.

End RouteTerms.

(** ** Terms for the flow of the cursor *)

Module FlowTerms.
Import JS FS Detect Net.

(** The cycle of [w] on [f] ends in [updateLastSyncTime]: its query
    returns no row, or its post resolves. *)
Definition advances (w : V2.world) (f : fs) : bool :=
  match V2.run_query w (V2.getLastSyncTime (V2.clock_default w) f) with
  | Recordset rows =>
      if (0 <? List.length rows)%nat
      then axios_resolves (V2.run_post w rows)
      else true
  | QueryError _ => false
  end.

(** The [newCheckTime] a waiting call holds. *)
Definition start_of (s : V2.suspended) : Z :=
  match s with
  | V2.AwaitQuery _ newCheckTime => newCheckTime
  | V2.AwaitPost newCheckTime _ => newCheckTime
  end.

(** [t] is the start time of one of the ticks of [es]. *)
Definition ticked (es : list V2.event) (t : Z) : Prop :=
  exists t0, In (V2.Tick t0 t) es.

(** The cursor file is the one of [f0], or was written at the start
    time of a tick of [es]; and so will be what the waiting calls
    write. *)
Definition written_by_ticks (f0 : fs) (es : list V2.event) (a : V2.agent)
  : Prop :=
  (cursor_file (V2.disk a) = cursor_file f0 \/
   exists t, ticked es t /\
             cursor_file (V2.disk a) = Some (Parses (cursor_document t))) /\
  (forall s, In s (V2.in_flight a) -> ticked es (start_of s)).

(** A first cycle that starts at 1000 and finds nothing, and a second
    one whose store answers on the tables of scenario (2). *)
Definition first_cycle : V2.world :=
  {| V2.clock_default := 1000; V2.clock_start := 1000;
     V2.run_query := fun _ => Recordset [];
     V2.run_post := fun _ => HttpResponse 200 |}.

Definition second_cycle : V2.world :=
  {| V2.clock_default := 6000; V2.clock_start := 6000;
     V2.run_query :=
       fun lastCheck =>
         match lastCheck with
         | Some t => Recordset (V2.detect t DetectTerms.two_products)
         | None => QueryError "Invalid date."
         end;
     V2.run_post := fun _ => HttpResponse 200 |}.

End FlowTerms.

(* ================================================================== *)
(** * Part III.  Properties *)
(* ================================================================== *)

(** ** The cursor store *)

Module CursorFacts.
Import JS FS V2 SyncTerms.

(** The default is taken when the file is not there, cannot be read,
    is not JSON, or parses to [null]. *)
Lemma getLastSyncTime_default (now : Z) (f : fs) :
  cursor_file f = None \/ readable f = false \/
  cursor_file f = Some NotJSON \/ cursor_file f = Some (Parses (DPrim JNull)) ->
  getLastSyncTime now f = Some (now - 60000).
Proof.
  unfold getLastSyncTime.
  intros [H | [H | [H | H]]].
  - now rewrite H.
  - rewrite H. now destruct (cursor_file f).
  - rewrite H. now destruct (readable f).
  - rewrite H. now destruct (readable f).
Qed.

Lemma getLastSyncTime_default_example :
  getLastSyncTime 1700000060000 (healthy (Some NotJSON)) = Some 1700000000000.
Proof.
  apply (getLastSyncTime_default 1700000060000 (healthy (Some NotJSON))).
  right; right; left; reflexivity.
Defined.

(** What was written by [updateLastSyncTime] is what [getLastSyncTime]
    reads afterwards. *)
Lemma getLastSyncTime_after_update (now date : Z) (f : fs) :
  writable f = true -> readable f = true ->
  getLastSyncTime now (updateLastSyncTime date f) = Some date.
Proof.
  intros Hw Hr. unfold updateLastSyncTime, getLastSyncTime.
  rewrite Hw. cbn. now rewrite Hr.
Qed.

Lemma getLastSyncTime_after_update_example :
  getLastSyncTime 5 (updateLastSyncTime 1700000000000 (healthy None))
  = Some 1700000000000.
Proof.
  apply (getLastSyncTime_after_update 5 1700000000000 (healthy None));
    reflexivity.
Defined.

(** C9, at the inputs where the code leaves the claim: a [cursor.json]
    that parses but whose [lastSync] is no timestamp is not answered
    with the default.  For [{"lastSync":"abc"}] and for [{}] the result
    is the Invalid Date, for [{"lastSync":null}] it is the epoch. *)
Theorem getLastSyncTime_keeps_unusable_lastSync (now : Z) :
  getLastSyncTime now (healthy (Some (Parses (DObj [("lastSync", JStr None)]))))
  = None /\
  getLastSyncTime now (healthy (Some (Parses (DObj [])))) = None /\
  getLastSyncTime now (healthy (Some (Parses (DObj [("lastSync", JNull)]))))
  = Some 0.
Proof. repeat split. Qed.

End CursorFacts.

(** ** The sync loop *)

Module SyncFacts.
Import JS FS Detect Net EventLoop SyncTerms.






(** Scenario (5) of the specification: the post times out, and the next
    cycle reads the same cursor. *)
Lemma cursor_kept_when_post_times_out :
  let w := {| V2.clock_default := 1700000005000;
              V2.clock_start := 1700000005001;
              V2.run_query :=
                fun _ => Recordset [ {| sku := "789A"; name := "CAFE";
                                        total_stock := 7; price := 110000 |} ];
              V2.run_post := fun _ => HttpNoResponse "ETIMEDOUT" |} in
  let f := healthy (Some (Parses (cursor_document 1000))) in
  V2.monitorarMudancas w true f = f /\
  V2.getLastSyncTime 1700000010000 (V2.monitorarMudancas w true f) = Some 1000.
Proof. vm_compute. split; reflexivity. Qed.

(** The top to bottom reading of [monitorarMudancas] is what the event
    loop does when nothing else runs in between. *)
Lemma monitorarMudancas_as_events (w : V2.world) (f : fs) (rows : list update) :
  V2.run_query w (V2.getLastSyncTime (V2.clock_default w) f) = Recordset rows ->
  V2.disk
    (V2.run {| V2.connected := true; V2.disk := f; V2.in_flight := [] |}
       [V2.Tick (V2.clock_default w) (V2.clock_start w);
        V2.QueryDone 0 (Recordset rows);
        V2.PostDone 0 (V2.run_post w rows)])
  = V2.monitorarMudancas w true f.
Proof.
  intros Hq. unfold V2.monitorarMudancas. cbn. rewrite Hq.
  destruct rows as [|r rows]; cbn; [reflexivity|].
  now destruct (axios_resolves (V2.run_post w (r :: rows))).
Qed.

Lemma monitorarMudancas_as_events_example :
  V2.disk
    (V2.run {| V2.connected := true; V2.disk := healthy None;
               V2.in_flight := [] |}
       [V2.Tick 1700000005000 1700000005001;
        V2.QueryDone 0 (Recordset []);
        V2.PostDone 0 (HttpNoResponse "ETIMEDOUT")])
  = V2.monitorarMudancas quiet true (healthy None).
Proof.
  exact (monitorarMudancas_as_events quiet (healthy None) [] eq_refl).
Defined.

(** A cycle that finds the pool disconnected, or whose query fails,
    leaves the file system as it was. *)
Lemma monitorarMudancas_noop (w : V2.world) (connected : bool) (f : fs) :
  connected = false \/
  (exists message,
      V2.run_query w (V2.getLastSyncTime (V2.clock_default w) f)
      = QueryError message) ->
  V2.monitorarMudancas w connected f = f.
Proof.
  unfold V2.monitorarMudancas. intros [-> | [message E]]; [reflexivity|].
  rewrite E. now destruct connected.
Qed.

Lemma monitorarMudancas_noop_example :
  V2.monitorarMudancas quiet false (healthy None) = healthy None.
Proof.
  exact (monitorarMudancas_noop quiet false (healthy None) (or_introl eq_refl)).
Defined.

Lemma run_ticks_V2 (ts : list (Z * Z)) : forall a : V2.agent,
  V2.run a (map tick ts)
  = if V2.connected a
    then {| V2.connected := true;
            V2.disk := V2.disk a;
            V2.in_flight := V2.in_flight a ++ map (started (V2.disk a)) ts |}
    else a.
Proof.
  induction ts as [|p ts IH]; intros [c d fl]; cbn.
  - rewrite app_nil_r. now destruct c.
  - unfold V2.run in IH. rewrite IH. destruct c; cbn; [|reflexivity].
    now rewrite <- app_assoc.
Qed.

Lemma run_ticks_V1 (n : nat) : forall a : V1.agent,
  V1.run a (repeat V1.Tick n)
  = if V1.connected a
    then {| V1.connected := true;
            V1.in_flight := V1.in_flight a ++ repeat V1.AwaitQuery n |}
    else a.
Proof.
  induction n as [|n IH]; intros [c fl]; cbn.
  - rewrite app_nil_r. now destruct c.
  - unfold V1.run in IH. rewrite IH. destruct c; cbn; [|reflexivity].
    now rewrite <- app_assoc.
Qed.

(** C4 as stated fails: a tick that finds a call of the monitor still
    waiting for its query is not skipped. *)
Lemma tick_not_skipped_while_in_flight :
  ~ (forall (a : V2.agent) (t0 t1 : Z),
        V2.in_flight a <> [] -> V2.step a (V2.Tick t0 t1) = a).
Proof.
  intro H.
  specialize
    (H {| V2.connected := true;
          V2.disk := healthy None;
          V2.in_flight := [V2.AwaitQuery (Some 0) 5000] |}
       10000 10000).
  cbn in H. assert (E : [V2.AwaitQuery (Some 0) 5000] <> []) by discriminate.
  specialize (H E). discriminate H.
Qed.

(** C4, amended: in both variants the only guard of a tick is the pool.
    Any number of ticks with no completion in between leaves, when the
    pool is connected, one more call in flight per tick, each waiting
    for its own query, after those that were in flight already; when the
    pool is not connected the ticks change nothing. *)
Theorem ticks_start_one_cycle_each
  (a1 : V1.agent) (a2 : V2.agent) (n : nat) (ts : list (Z * Z)) :
  V1.run a1 (repeat V1.Tick n)
  = (if V1.connected a1
     then {| V1.connected := true;
             V1.in_flight := V1.in_flight a1 ++ repeat V1.AwaitQuery n |}
     else a1) /\
  V2.run a2 (map tick ts)
  = (if V2.connected a2
     then {| V2.connected := true;
             V2.disk := V2.disk a2;
             V2.in_flight := V2.in_flight a2 ++ map (started (V2.disk a2)) ts |}
     else a2).
Proof. split; [apply run_ticks_V1 | apply run_ticks_V2]. Qed.

(** With a tick every 5 s and a post that may take 10 s: two queries in
    flight at once. *)
Lemma two_queries_in_flight :
  V2.in_flight
    (V2.run {| V2.connected := true;
               V2.disk := healthy None;
               V2.in_flight := [] |}
       [V2.Tick 100000 100000; V2.Tick 105000 105000])
  = [V2.AwaitQuery (Some 40000) 100000; V2.AwaitQuery (Some 45000) 105000].
Proof. reflexivity. Qed.

End SyncFacts.

(** ** The change detection query *)

Module DetectFacts.
Import Store Detect DetectTerms.

Lemma sum_clamp_nonneg (l : list Z) : 0 <= sum (map clamp l).
Proof.
  unfold sum. induction l as [|e l IH]; cbn [map fold_right]; [lia|].
  unfold clamp at 1. destruct (e <? 0) eqn:E; [lia|].
  apply Z.ltb_ge in E. lia.
Qed.

Lemma sum_clamp_drops_negatives (l : list Z) :
  sum (map clamp l) = sum (filter (fun e => 0 <=? e) l).
Proof.
  induction l as [|e l IH]; [reflexivity|].
  cbn [map filter]. unfold clamp at 1.
  destruct (e <? 0) eqn:E.
  - apply Z.ltb_lt in E.
    assert (F : (0 <=? e) = false) by (apply Z.leb_gt; lia).
    rewrite F. unfold sum in *. cbn [fold_right]. lia.
  - apply Z.ltb_ge in E.
    assert (F : (0 <=? e) = true) by (apply Z.leb_le; lia).
    rewrite F. unfold sum in *. cbn [fold_right]. lia.
Qed.

Lemma in_select_grouped (rows : list (produto * prodloja)) (u : update) :
  In u (select_grouped rows) <->
  exists r, In r rows /\ u = aggregate (key r) rows.
Proof.
  unfold select_grouped. rewrite in_map_iff. split.
  - intros (k & <- & Hk). apply nodup_In in Hk.
    apply in_map_iff in Hk. destruct Hk as (r & <- & Hr). now exists r.
  - intros (r & Hr & ->). exists (key r). split; [reflexivity|].
    apply nodup_In. now apply in_map.
Qed.

Lemma total_stock_of_group (rows : list (produto * prodloja)) (u : update) :
  In u (select_grouped rows) ->
  0 <= total_stock u /\
  total_stock u = sum (filter (fun e => 0 <=? e) (stocks (sku u) rows)).
Proof.
  intros H. apply in_select_grouped in H. destruct H as (r & _ & ->).
  cbn. unfold stocks.
  rewrite <- sum_clamp_drops_negatives, map_map.
  split; [|reflexivity].
  rewrite <- (map_map (fun r0 => L_EST_ATUAL (snd r0)) clamp).
  apply sum_clamp_nonneg.
Qed.

(** C8: in a batch of either variant, [total_stock] is not negative and
    is the sum of the location stocks of the sku that are not negative:
    a negative stock adds zero. *)
Theorem total_stock_clamped
  (db : tables) (lastCheck getdate : Z) (u : update) :
  (In u (V2.detect lastCheck db) ->
   0 <= total_stock u /\
   total_stock u
   = sum (filter (fun e => 0 <=? e) (stocks (sku u) (V2.matching lastCheck db)))) /\
  (In u (V1.detect getdate db) ->
   0 <= total_stock u /\
   total_stock u
   = sum (filter (fun e => 0 <=? e) (stocks (sku u) (V1.matching getdate db)))).
Proof. split; apply total_stock_of_group. Qed.

Lemma two_products_batch :
  V2.detect 1000 two_products
  = [ {| sku := "789A"; name := "CAFE"; total_stock := 7; price := 110000 |};
      {| sku := "789B"; name := "ACUCAR"; total_stock := 4; price := 50000 |} ].
Proof. vm_compute. reflexivity. Qed.

Lemma total_stock_clamped_example :
  0 <= 7 /\
  7 = sum (filter (fun e => 0 <=? e) (stocks "789A" (V2.matching 1000 two_products))).
Proof.
  apply (proj1 (total_stock_clamped two_products 1000 0
          {| sku := "789A"; name := "CAFE"; total_stock := 7; price := 110000 |})).
  rewrite two_products_batch. left. reflexivity.
Defined.

(** The rows of the join. *)
Lemma in_joined (db : tables) (p : produto) (l : prodloja) :
  In (p, l) (joined db) <->
  In p (PRODUTOS db) /\ In l (PRODLOJAS db) /\ P_CODIGO p = L_CODIGO l.
Proof.
  unfold joined. rewrite in_flat_map. split.
  - intros (p' & Hp & H). apply in_map_iff in H.
    destruct H as (l' & E & Hl). inversion E; subst.
    apply filter_In in Hl. destruct Hl as [Hl Hc]. apply Z.eqb_eq in Hc.
    auto.
  - intros (Hp & Hl & Hc). exists p. split; [assumption|].
    apply in_map. apply filter_In. split; [assumption|]. now apply Z.eqb_eq.
Qed.

Lemma has_sku_key (p : produto) (l : prodloja) (s : string) :
  has_sku p = true /\ key (p, l) = s <-> P_CBARRA p = Some s /\ s <> "".
Proof.
  unfold has_sku, key. cbn. destruct (P_CBARRA p) as [c|].
  - split.
    + intros [H <-]. split; [reflexivity|].
      intros ->. discriminate H.
    + intros [E Hs]. inversion E; subst. split; [|reflexivity].
      destruct (String.eqb_spec s ""); [contradiction|reflexivity].
  - split; [intros [H _]; discriminate H | intros [H _]; discriminate H].
Qed.

(** The query of variant 2 returns one row per sku, and a row for sku
    [s] exactly when [s] is not empty and is the CBARRA of a product
    with a location row whose DATA_ALTERACAO is strictly after
    [lastCheck]. *)
Theorem detect_V2_exact (lastCheck : Z) (db : tables) (s : string) :
  NoDup (map sku (V2.detect lastCheck db)) /\
  ((exists u, In u (V2.detect lastCheck db) /\ sku u = s) <->
   (s <> "" /\
    exists p l t,
      In p (PRODUTOS db) /\ In l (PRODLOJAS db) /\ P_CODIGO p = L_CODIGO l /\
      P_CBARRA p = Some s /\ P_DATA_ALTERACAO p = Some t /\ lastCheck < t)).
Proof.
  split.
  - unfold V2.detect, select_grouped. rewrite map_map. cbn.
    rewrite map_id. apply NoDup_nodup.
  - unfold V2.detect. split.
    + intros (u & Hu & <-). apply in_select_grouped in Hu.
      destruct Hu as ([p l] & Hr & ->). cbn [sku aggregate].
      apply filter_In in Hr. destruct Hr as [Hj Hw].
      apply andb_true_iff in Hw. destruct Hw as [Hc Hs].
      apply in_joined in Hj. destruct Hj as (Hp & Hl & Hcode).
      cbn [fst] in Hc, Hs.
      destruct (proj1 (has_sku_key p l (key (p, l))) (conj Hs eq_refl))
        as [Hb Hne].
      split; [assumption|].
      unfold V2.changed_since in Hc. cbn [fst] in Hc.
      destruct (P_DATA_ALTERACAO p) as [t|] eqn:Et; [|discriminate Hc].
      apply Z.ltb_lt in Hc. exists p, l, t. auto 10.
    + intros (Hne & p & l & t & Hp & Hl & Hcode & Hb & Et & Hlt).
      destruct (proj2 (has_sku_key p l s) (conj Hb Hne)) as [Hs Hk].
      exists (aggregate (key (p, l)) (V2.matching lastCheck db)).
      split; [|exact Hk].
      apply in_select_grouped. exists (p, l). split; [|reflexivity].
      apply filter_In. split.
      * apply in_joined. auto.
      * apply andb_true_iff. split; [|exact Hs].
        unfold V2.changed_since. cbn [fst]. rewrite Et.
        now apply Z.ltb_lt.
Qed.

(** C5, at an input where variant 1 leaves the claim: a product changed
    after the cursor but more than five seconds before the server clock
    is returned by the query of variant 2 and not by that of variant 1,
    whose window does not depend on any cursor. *)
Theorem detect_V1_misses_change_after_cursor :
  V2.detect 1000 two_products <> [] /\
  V1.detect 60000 two_products = [] /\
  V1.detect 7000 two_products
  = [ {| sku := "789A"; name := "CAFE"; total_stock := 7; price := 110000 |};
      {| sku := "789B"; name := "ACUCAR"; total_stock := 4; price := 50000 |} ].
Proof.
  split; [rewrite two_products_batch; discriminate|].
  split; vm_compute; reflexivity.
Qed.

End DetectFacts.

(** ** POST /criar-pedido: what a request leaves in the store *)

Module OrderFacts.
Import JS Store Tx Orders OrderTerms.
Local Open Scope float_scope.

(** *** The monad of [try] *)

Lemma bind_ok {A B : Type} (m : M A) (k : A -> M B) (c : conn) (b : B)
  (c' : conn) :
  bind m k c = (Ok b, c') ->
  exists a c1, m c = (Ok a, c1) /\ k a c1 = (Ok b, c').
Proof.
  unfold bind. destruct (m c) as [[a|message] c1]; [|discriminate].
  intros H. now exists a, c1.
Qed.

Lemma bind_thrown {A B : Type} (m : M A) (k : A -> M B) (c : conn)
  (message : string) (c' : conn) :
  bind m k c = (Thrown message, c') ->
  m c = (Thrown message, c') \/
  exists a c1, m c = (Ok a, c1) /\ k a c1 = (Thrown message, c').
Proof.
  unfold bind. destruct (m c) as [[a|e] c1].
  - intros H. right. now exists a, c1.
  - intros H. left. now inversion H.
Qed.

Lemma await_answered {A : Type} (o : op) (done : conn -> A * conn) (c : conn) :
  rejects c (List.length (log c)) = None ->
  await o done c = (Ok (fst (done c)), sent o (snd (done c))).
Proof. unfold await. intros ->. now destruct (done c). Qed.

Lemma await_ok {A : Type} (o : op) (done : conn -> A * conn) (c : conn)
  (a : A) (c' : conn) :
  await o done c = (Ok a, c') ->
  rejects c (List.length (log c)) = None /\
  a = fst (done c) /\ c' = sent o (snd (done c)).
Proof.
  unfold await. destruct (rejects c (List.length (log c))); [discriminate|].
  destruct (done c) as [a1 c1]. intros H. inversion H. auto.
Qed.

Lemma await_thrown {A : Type} (o : op) (done : conn -> A * conn) (c : conn)
  (message : string) (c' : conn) :
  await o done c = (Thrown message, c') ->
  rejects c (List.length (log c)) = Some message /\ c' = sent o c.
Proof.
  unfold await. destruct (rejects c (List.length (log c))).
  - intros H. now inversion H.
  - destruct (done c). discriminate.
Qed.

(** *** The lookups *)

Lemma resolve_all_run (not_found : string) (its : list item) : forall c : conn,
  answering c ->
  resolve_all not_found its c
  = (match found_all (current c) its with
     | inl rs => Ok rs
     | inr missing => Thrown (not_found ++ sku missing)
     end,
     {| durable := durable c; active := active c;
        log := log c ++ map SelectProduto (asked (current c) its);
        getdate := getdate c; rejects := rejects c; types := types c |}).
Proof.
  induction its as [|it rest IH]; intros c Hq.
  - cbn. rewrite app_nil_r. now destruct c.
  - cbn [resolve_all found_all asked]. unfold bind at 1.
    unfold resolve, bind, select_produto, found.
    rewrite await_answered by apply Hq. cbn [fst snd].
    destruct (produto_by_sku (sku it) (PRODUTOS (current c))) as [|p ps].
    + reflexivity.
    + unfold ret at 1. rewrite IH by exact Hq. cbn.
      replace (current (sent (SelectProduto (sku it)) c)) with (current c)
        by reflexivity.
      rewrite <- app_assoc. cbn.
      now destruct (found_all (current c) rest).
Qed.

Lemma resolve_all_ok (not_found : string) (its : list item) :
  forall (c : conn) (rs : list resolved) (c' : conn),
  resolve_all not_found its c = (Ok rs, c') ->
  found_all (current c) its = inl rs /\
  c' = {| durable := durable c; active := active c;
          log := log c ++ map SelectProduto (map sku its);
          getdate := getdate c; rejects := rejects c; types := types c |}.
Proof.
  induction its as [|it rest IH]; intros c rs c' H.
  - cbn in H. inversion H; subst. cbn. rewrite app_nil_r.
    split; [reflexivity|now destruct c'].
  - cbn [resolve_all] in H.
    apply bind_ok in H. destruct H as (r & c1 & H1 & H).
    apply bind_ok in H. destruct H as (rs' & c2 & H2 & H).
    inversion H; subst rs c'. clear H.
    unfold resolve in H1. apply bind_ok in H1.
    destruct H1 as (prod & c0 & H0 & H1).
    apply await_ok in H0. destruct H0 as (_ & -> & ->). cbn [fst snd] in H1.
    cbn [found_all]. unfold found.
    destruct (produto_by_sku (sku it) (PRODUTOS (current c))) as [|p ps];
      [discriminate H1|].
    inversion H1; subst r c1. clear H1.
    destruct (IH _ _ _ H2) as [E ->].
    replace (current (sent (SelectProduto (sku it)) c)) with (current c) in E
      by reflexivity.
    rewrite E. split; [reflexivity|].
    cbn. rewrite <- app_assoc. reflexivity.
Qed.

Lemma found_all_source (t : tables) (its : list item) (rs : list resolved) :
  found_all t its = inl rs -> map source rs = its.
Proof.
  revert rs. induction its as [|it rest IH]; intros rs; cbn.
  - intros E. now inversion E.
  - unfold found at 1.
    destruct (produto_by_sku (sku it) (PRODUTOS t)); [discriminate|].
    destruct (found_all t rest) as [rs'|]; [|discriminate].
    intros E. inversion E; subst. cbn. now rewrite (IH rs').
Qed.

Lemma found_all_asked (t : tables) (its : list item) (rs : list resolved) :
  found_all t its = inl rs -> asked t its = map sku its.
Proof.
  revert rs. induction its as [|it rest IH]; intros rs; cbn; [reflexivity|].
  destruct (found t it); [|discriminate].
  destruct (found_all t rest) as [rs'|]; [|discriminate].
  intros _. now rewrite (IH rs').
Qed.

(** The first item without a product is an item of the request whose sku
    no product carries. *)
Lemma found_all_missing (t : tables) (its : list item) (missing : item) :
  found_all t its = inr missing ->
  In missing its /\ produto_by_sku (sku missing) (PRODUTOS t) = [].
Proof.
  induction its as [|it rest IH]; cbn; [discriminate|].
  unfold found at 1.
  destruct (produto_by_sku (sku it) (PRODUTOS t)) eqn:E.
  - intros H. inversion H; subst. auto.
  - destruct (found_all t rest); [discriminate|].
    intros H. inversion H; subst. destruct (IH eq_refl). auto.
Qed.

(** It is the first: every item before it has a product. *)
Lemma found_all_first (t : tables) (its : list item) (missing : item) :
  found_all t its = inr missing ->
  exists before after,
    its = before ++ missing :: after /\
    produto_by_sku (sku missing) (PRODUTOS t) = [] /\
    forall it, In it before -> produto_by_sku (sku it) (PRODUTOS t) <> [].
Proof.
  induction its as [|it rest IH]; cbn [found_all]; [discriminate|].
  unfold found at 1.
  destruct (produto_by_sku (sku it) (PRODUTOS t)) eqn:E.
  - intros H. inversion H; subst. exists [], rest.
    split; [reflexivity|]. split; [exact E|]. intros x [].
  - destruct (found_all t rest); [discriminate|].
    intros H. inversion H; subst.
    destruct (IH eq_refl) as (before & after & -> & Hno & Hall).
    exists (it :: before), after. split; [reflexivity|]. split; [exact Hno|].
    intros x [Hx | Hx]; [subst x; rewrite E; discriminate|now apply Hall].
Qed.

(** An item without a product makes the lookup loop fail. *)
Lemma found_all_fails (t : tables) (its : list item) (it : item) :
  In it its -> produto_by_sku (sku it) (PRODUTOS t) = [] ->
  exists missing, found_all t its = inr missing.
Proof.
  intros Hin Hno. induction its as [|x rest IH]; [contradiction|].
  cbn. destruct (found t x) eqn:Ex; [|now exists x].
  destruct Hin as [-> | Hin].
  - unfold found in Ex. rewrite Hno in Ex. discriminate.
  - destruct (IH Hin) as [m ->]. now exists m.
Qed.

(** *** The parameters *)

Lemma takes_Int_true (d : driver) (v : Z) :
  takes_Int d v = true <-> sql_Int d v = None.
Proof. unfold takes_Int. destruct (sql_Int d v); split; congruence. Qed.

Lemma takes_Float_true (d : driver) (x : float) :
  takes_Float d x = true <-> sql_Float d x = None.
Proof. unfold takes_Float. destruct (sql_Float d x); split; congruence. Qed.

Lemma takes_Money_true (d : driver) (x : float) :
  takes_Money d x = true <-> sql_Money d x = inl (bound d x).
Proof.
  unfold takes_Money, bound. destruct (sql_Money d x); split; congruence.
Qed.

Lemma input_Int_ok (v a : Z) (c c' : conn) :
  input_Int v c = (Ok a, c') -> takes_Int (types c) v = true /\ a = v /\ c' = c.
Proof.
  unfold input_Int, takes_Int. destruct (sql_Int (types c) v); [discriminate|].
  intros H. inversion H. auto.
Qed.

Lemma input_Float_ok (x a : float) (c c' : conn) :
  input_Float x c = (Ok a, c') ->
  takes_Float (types c) x = true /\ a = x /\ c' = c.
Proof.
  unfold input_Float, takes_Float. destruct (sql_Float (types c) x);
    [discriminate|].
  intros H. inversion H. auto.
Qed.

Lemma input_Money_ok (x : float) (a : Z) (c c' : conn) :
  input_Money x c = (Ok a, c') ->
  takes_Money (types c) x = true /\ a = bound (types c) x /\ c' = c.
Proof.
  unfold input_Money, takes_Money, bound. destruct (sql_Money (types c) x);
    [|discriminate].
  intros H. inversion H. auto.
Qed.

Lemma input_Int_run (v : Z) (c : conn) :
  takes_Int (types c) v = true -> input_Int v c = (Ok v, c).
Proof. intros H. apply takes_Int_true in H. unfold input_Int. now rewrite H. Qed.

Lemma input_Float_run (x : float) (c : conn) :
  takes_Float (types c) x = true -> input_Float x c = (Ok x, c).
Proof.
  intros H. apply takes_Float_true in H. unfold input_Float. now rewrite H.
Qed.

Lemma input_Money_run (x : float) (c : conn) :
  takes_Money (types c) x = true ->
  input_Money x c = (Ok (bound (types c) x), c).
Proof.
  intros H. apply takes_Money_true in H. unfold input_Money. now rewrite H.
Qed.

Ltac taken H :=
  repeat (apply andb_true_iff in H;
          let T := fresh "T" in destruct H as [H T]).

(** *** The inserts *)

Lemma insert_orcperson_run
  (row : Z -> Z -> js_string -> Z -> Z -> orcperson) (id seq : Z)
  (nm : js_string) (total : float) (c : conn) (t : tables) :
  answering c -> active c = Some t ->
  takes_header (types c) id seq total = true ->
  insert_orcperson row id seq nm total c
  = (Ok tt,
     let hdr :=
       row id seq nm (bound (types c) total) (getdate c (List.length (log c))) in
     {| durable := durable c; active := Some (with_header t hdr);
        log := log c ++ [InsertOrcperson hdr];
        getdate := getdate c; rejects := rejects c; types := types c |}).
Proof.
  intros Hq Ha Ht. unfold takes_header in Ht. taken Ht.
  unfold insert_orcperson, bind.
  rewrite (input_Int_run _ _ Ht), (input_Int_run _ _ T0), (input_Money_run _ _ T).
  rewrite await_answered by apply Hq.
  cbn [fst snd]. unfold write, current, sent, with_header. rewrite Ha.
  reflexivity.
Qed.

Lemma insert_orcperson_ok
  (row : Z -> Z -> js_string -> Z -> Z -> orcperson) (id seq : Z)
  (nm : js_string) (total : float) (c c' : conn) (t : tables) :
  insert_orcperson row id seq nm total c = (Ok tt, c') ->
  active c = Some t ->
  takes_header (types c) id seq total = true /\
  c' = (let hdr :=
          row id seq nm (bound (types c) total)
            (getdate c (List.length (log c))) in
        {| durable := durable c; active := Some (with_header t hdr);
           log := log c ++ [InsertOrcperson hdr];
           getdate := getdate c; rejects := rejects c; types := types c |}).
Proof.
  intros H Ha. unfold insert_orcperson in H.
  apply bind_ok in H. destruct H as (a1 & c1 & H1 & H).
  apply input_Int_ok in H1. destruct H1 as (T1 & -> & ->).
  apply bind_ok in H. destruct H as (a2 & c2 & H2 & H).
  apply input_Int_ok in H2. destruct H2 as (T2 & -> & ->).
  apply bind_ok in H. destruct H as (a3 & c3 & H3 & H).
  apply input_Money_ok in H3. destruct H3 as (T3 & -> & ->).
  apply await_ok in H. destruct H as (_ & _ & ->).
  unfold takes_header. rewrite T1, T2, T3. split; [reflexivity|].
  cbn [fst snd]. unfold write, current, sent, with_header. rewrite Ha.
  reflexivity.
Qed.

Lemma insert_line_run (novoId n : Z) (it : resolved) (c : conn) (t : tables) :
  answering c -> active c = Some t ->
  takes_line (types c) novoId n it = true ->
  insert_orcpersoni novoId (codigoInterno it) (descricao it)
    (qtd (source it)) (preco (source it))
    (qtd (source it) * preco (source it)) n c
  = (Ok tt,
     let row := line_row (types c) novoId n it (getdate c (List.length (log c))) in
     {| durable := durable c; active := Some (with_lines t [row]);
        log := log c ++ [InsertOrcpersoni row];
        getdate := getdate c; rejects := rejects c; types := types c |}).
Proof.
  intros Hq Ha Ht. unfold takes_line in Ht. taken Ht.
  unfold insert_orcpersoni, bind.
  rewrite (input_Int_run _ _ Ht), (input_Int_run _ _ T3),
    (input_Float_run _ _ T2), (input_Money_run _ _ T1),
    (input_Money_run _ _ T0), (input_Int_run _ _ T).
  rewrite await_answered by apply Hq.
  cbn [fst snd]. unfold write, current, sent, with_lines, line_row. rewrite Ha.
  reflexivity.
Qed.

Lemma insert_line_ok (novoId n : Z) (it : resolved) (c c' : conn) (t : tables) :
  insert_orcpersoni novoId (codigoInterno it) (descricao it)
    (qtd (source it)) (preco (source it))
    (qtd (source it) * preco (source it)) n c = (Ok tt, c') ->
  active c = Some t ->
  takes_line (types c) novoId n it = true /\
  c' = (let row :=
          line_row (types c) novoId n it (getdate c (List.length (log c))) in
        {| durable := durable c; active := Some (with_lines t [row]);
           log := log c ++ [InsertOrcpersoni row];
           getdate := getdate c; rejects := rejects c; types := types c |}).
Proof.
  intros H Ha. unfold insert_orcpersoni in H.
  apply bind_ok in H. destruct H as (a1 & c1 & H1 & H).
  apply input_Int_ok in H1. destruct H1 as (T1 & -> & ->).
  apply bind_ok in H. destruct H as (a2 & c2 & H2 & H).
  apply input_Int_ok in H2. destruct H2 as (T2 & -> & ->).
  apply bind_ok in H. destruct H as (a3 & c3 & H3 & H).
  apply input_Float_ok in H3. destruct H3 as (T3 & -> & ->).
  apply bind_ok in H. destruct H as (a4 & c4 & H4 & H).
  apply input_Money_ok in H4. destruct H4 as (T4 & -> & ->).
  apply bind_ok in H. destruct H as (a5 & c5 & H5 & H).
  apply input_Money_ok in H5. destruct H5 as (T5 & -> & ->).
  apply bind_ok in H. destruct H as (a6 & c6 & H6 & H).
  apply input_Int_ok in H6. destruct H6 as (T6 & -> & ->).
  apply await_ok in H. destruct H as (_ & _ & ->).
  unfold takes_line. rewrite T1, T2, T3, T4, T5, T6. split; [reflexivity|].
  cbn [fst snd]. unfold write, current, sent, with_lines, line_row. rewrite Ha.
  reflexivity.
Qed.

Lemma insert_lines_run (novoId : Z) (rs : list resolved) :
  forall (n : Z) (c : conn) (t : tables),
  answering c -> active c = Some t ->
  takes_lines (types c) novoId n rs = true ->
  insert_lines novoId n rs c
  = (Ok tt,
     let lines :=
       line_rows (types c) novoId n rs (getdate c) (List.length (log c)) in
     {| durable := durable c; active := Some (with_lines t lines);
        log := log c ++ map InsertOrcpersoni lines;
        getdate := getdate c; rejects := rejects c; types := types c |}).
Proof.
  induction rs as [|it rest IH]; intros n c t Hq Ha Ht.
  - destruct c as [d a l g r ty]. cbn in Ha. subst a. destruct t.
    cbn. unfold ret, with_lines. cbn. rewrite !app_nil_r. reflexivity.
  - cbn [takes_lines] in Ht. apply andb_true_iff in Ht. destruct Ht as [T1 T2].
    cbn [insert_lines line_rows]. unfold bind at 1.
    rewrite (insert_line_run _ _ _ _ t Hq Ha T1). cbn zeta.
    erewrite IH by first [exact Hq | exact T2 | reflexivity].
    cbn [durable active log getdate rejects types].
    rewrite length_app. cbn [List.length].
    replace (List.length (log c) + 1)%nat with (S (List.length (log c))) by lia.
    unfold with_lines. cbn.
    rewrite <- !app_assoc. reflexivity.
Qed.

Lemma insert_lines_ok (novoId : Z) (rs : list resolved) :
  forall (n : Z) (c c' : conn) (t : tables),
  insert_lines novoId n rs c = (Ok tt, c') ->
  active c = Some t ->
  takes_lines (types c) novoId n rs = true /\
  c' = (let lines :=
          line_rows (types c) novoId n rs (getdate c) (List.length (log c)) in
        {| durable := durable c; active := Some (with_lines t lines);
           log := log c ++ map InsertOrcpersoni lines;
           getdate := getdate c; rejects := rejects c; types := types c |}).
Proof.
  induction rs as [|it rest IH]; intros n c c' t H Ha.
  - cbn in H. inversion H; subst c'. split; [reflexivity|].
    destruct c as [d a l g r ty]. cbn in Ha. subst a. destruct t.
    cbn. unfold with_lines. cbn. rewrite !app_nil_r. reflexivity.
  - cbn [insert_lines] in H. apply bind_ok in H.
    destruct H as ([] & c1 & H1 & H).
    destruct (insert_line_ok _ _ _ _ _ t H1 Ha) as [T1 E1].
    cbn zeta in E1. subst c1.
    apply IH with (t := with_lines t
                     [line_row (types c) novoId n it
                        (getdate c (List.length (log c)))]) in H;
      [|reflexivity].
    destruct H as [T2 ->].
    cbn [types] in T2. cbn [takes_lines]. rewrite T1, T2.
    split; [reflexivity|].
    cbn [line_rows durable active log getdate rejects types].
    rewrite length_app. cbn [List.length].
    replace (List.length (log c) + 1)%nat with (S (List.length (log c))) by lia.
    unfold with_lines. cbn.
    rewrite <- !app_assoc. reflexivity.
Qed.

(** *** Inside the open transaction *)

Lemma still_open_refl (c : conn) : active c <> None -> still_open c c.
Proof.
  intros H. split; [reflexivity|]. split; [exact H|].
  exists []. split; [now rewrite app_nil_r|]. intros [].
Qed.

Lemma still_open_trans (c1 c2 c3 : conn) :
  still_open c1 c2 -> still_open c2 c3 -> still_open c1 c3.
Proof.
  intros (D1 & A1 & o1 & L1 & R1) (D2 & A2 & o2 & L2 & R2).
  split; [congruence|]. split; [exact A2|].
  exists (o1 ++ o2). split; [rewrite L2, L1; now rewrite app_assoc|].
  intros H. apply in_app_or in H. tauto.
Qed.

Lemma still_open_sent (o : op) (c : conn) :
  active c <> None -> o <> Rollback -> still_open c (sent o c).
Proof.
  intros H Ho. split; [reflexivity|]. split; [exact H|].
  exists [o]. split; [reflexivity|]. intros [E | []]. now apply Ho.
Qed.

Lemma still_open_written (o : op) (t : tables) (c : conn) :
  active c <> None -> o <> Rollback -> still_open c (sent o (write t c)).
Proof.
  intros H Ho. unfold write. destruct (active c); [|contradiction].
  split; [reflexivity|]. split; [discriminate|].
  exists [o]. split; [reflexivity|]. intros [E | []]. now apply Ho.
Qed.

Lemma inside_tx_ret {A : Type} (a : A) : inside_tx (ret a).
Proof. intros c o c' Ha H. inversion H; subst. now apply still_open_refl. Qed.

Lemma inside_tx_throw {A : Type} (message : string) :
  inside_tx (@throw A message).
Proof. intros c o c' Ha H. inversion H; subst. now apply still_open_refl. Qed.

Lemma inside_tx_bind {A B : Type} (m : M A) (k : A -> M B) :
  inside_tx m -> (forall a, inside_tx (k a)) -> inside_tx (bind m k).
Proof.
  intros Hm Hk c o c' Ha H. unfold bind in H.
  destruct (m c) as [[a|message] c1] eqn:E.
  - pose proof (Hm _ _ _ Ha E) as S1.
    apply still_open_trans with c1; [exact S1|].
    apply (Hk a c1 o c'); [|exact H]. now destruct S1 as (_ & A1 & _).
  - inversion H; subst. exact (Hm _ _ _ Ha E).
Qed.

Lemma inside_tx_input_Int (v : Z) : inside_tx (input_Int v).
Proof.
  intros c o c' Ha H. unfold input_Int in H.
  destruct (sql_Int (types c) v); inversion H; subst;
    now apply still_open_refl.
Qed.

Lemma inside_tx_input_Float (x : float) : inside_tx (input_Float x).
Proof.
  intros c o c' Ha H. unfold input_Float in H.
  destruct (sql_Float (types c) x); inversion H; subst;
    now apply still_open_refl.
Qed.

Lemma inside_tx_input_Money (x : float) : inside_tx (input_Money x).
Proof.
  intros c o c' Ha H. unfold input_Money in H.
  destruct (sql_Money (types c) x); inversion H; subst;
    now apply still_open_refl.
Qed.

Lemma inside_tx_select_produto (sku : string) : inside_tx (select_produto sku).
Proof.
  intros c o c' Ha H. unfold select_produto, await in H.
  destruct (rejects c (List.length (log c))); inversion H; subst;
    apply still_open_sent; auto; discriminate.
Qed.

Lemma inside_tx_select_next_ids (lk : bool) : inside_tx (select_next_ids lk).
Proof.
  intros c o c' Ha H. unfold select_next_ids, await in H.
  destruct (rejects c (List.length (log c))); inversion H; subst;
    apply still_open_sent; auto; discriminate.
Qed.

Lemma inside_tx_insert_orcperson
  (row : Z -> Z -> js_string -> Z -> Z -> orcperson) (id seq : Z)
  (nm : js_string) (total : float) :
  inside_tx (insert_orcperson row id seq nm total).
Proof.
  unfold insert_orcperson.
  apply inside_tx_bind; [apply inside_tx_input_Int|intros a1].
  apply inside_tx_bind; [apply inside_tx_input_Int|intros a2].
  apply inside_tx_bind; [apply inside_tx_input_Money|intros a3].
  intros c o c' Ha H. unfold await in H.
  destruct (rejects c (List.length (log c))); inversion H; subst.
  - apply still_open_sent; auto; discriminate.
  - apply still_open_written; auto; discriminate.
Qed.

Lemma inside_tx_insert_orcpersoni (idPedido idProd : Z) (desc : string)
  (q p t : float) (n : Z) :
  inside_tx (insert_orcpersoni idPedido idProd desc q p t n).
Proof.
  unfold insert_orcpersoni.
  apply inside_tx_bind; [apply inside_tx_input_Int|intros a1].
  apply inside_tx_bind; [apply inside_tx_input_Int|intros a2].
  apply inside_tx_bind; [apply inside_tx_input_Float|intros a3].
  apply inside_tx_bind; [apply inside_tx_input_Money|intros a4].
  apply inside_tx_bind; [apply inside_tx_input_Money|intros a5].
  apply inside_tx_bind; [apply inside_tx_input_Int|intros a6].
  intros c o c' Ha H. unfold await in H.
  destruct (rejects c (List.length (log c))); inversion H; subst.
  - apply still_open_sent; auto; discriminate.
  - apply still_open_written; auto; discriminate.
Qed.

Lemma inside_tx_resolve_all (not_found : string) (its : list item) :
  inside_tx (resolve_all not_found its).
Proof.
  induction its as [|it rest IH]; cbn [resolve_all]; [apply inside_tx_ret|].
  apply inside_tx_bind.
  - unfold resolve. apply inside_tx_bind; [apply inside_tx_select_produto|].
    intros [|p ps]; [apply inside_tx_throw|apply inside_tx_ret].
  - intros r. apply inside_tx_bind; [exact IH|]. intros rs. apply inside_tx_ret.
Qed.

Lemma inside_tx_insert_lines (novoId : Z) (rs : list resolved) : forall n : Z,
  inside_tx (insert_lines novoId n rs).
Proof.
  induction rs as [|it rest IH]; intros n; cbn [insert_lines];
    [apply inside_tx_ret|].
  apply inside_tx_bind; [apply inside_tx_insert_orcpersoni|].
  intros _. apply IH.
Qed.

Lemma inside_tx_customer_name (cli : customer) :
  inside_tx (V2.customer_name cli).
Proof.
  unfold V2.customer_name.
  destruct (nome cli) as [[s|t text]|].
  - destruct (truthy (Some (Str s))); apply inside_tx_ret.
  - destruct (truthy (Some (Other t text)));
      [apply inside_tx_throw|apply inside_tx_ret].
  - apply inside_tx_ret.
Qed.

Lemma open_on_throw_bind {A B : Type} (m : M A) (k : A -> M B) :
  inside_tx m -> (forall a, open_on_throw (k a)) -> open_on_throw (bind m k).
Proof.
  intros Hm Hk c message c' Ha H.
  apply bind_thrown in H. destruct H as [H | (a & c1 & H1 & H)].
  - exact (Hm _ _ _ Ha H).
  - pose proof (Hm _ _ _ Ha H1) as S1.
    apply still_open_trans with c1; [exact S1|].
    apply (Hk a c1 message c'); [|exact H]. now destruct S1 as (_ & A1 & _).
Qed.

Lemma open_on_throw_inside {A : Type} (m : M A) :
  inside_tx m -> open_on_throw m.
Proof. intros Hm c message c' Ha H. exact (Hm _ _ _ Ha H). Qed.

(** A [commit] that is rejected leaves the transaction open. *)
Lemma open_on_throw_commit {A : Type} (a : A) :
  open_on_throw (commit ;;; ret a).
Proof.
  intros c message c' Ha H.
  apply bind_thrown in H. destruct H as [H | (u & c1 & _ & H)].
  - unfold commit in H. apply await_thrown in H. destruct H as [_ ->].
    apply still_open_sent; [exact Ha|discriminate].
  - discriminate H.
Qed.

(** The statements of [try] after [begin], in either variant. *)
Lemma open_on_throw_store_order
  (row : Z -> Z -> js_string -> Z -> Z -> orcperson) (novoId novaSeq : Z)
  (nm : js_string) (total : float) (rs : list resolved) :
  open_on_throw (store_order row novoId novaSeq nm total rs).
Proof.
  unfold store_order.
  apply open_on_throw_bind; [apply inside_tx_insert_orcperson|intros _].
  apply open_on_throw_bind; [apply inside_tx_insert_lines|intros _].
  apply open_on_throw_commit.
Qed.

(** *** The body of [try] *)

Lemma begin_ok (c : conn) (u : unit) (c' : conn) :
  begin c = (Ok u, c') ->
  rejects c (List.length (log c)) = None /\ c' = left_open c [Begin].
Proof.
  unfold begin. intros H. apply await_ok in H. destruct H as (R & _ & ->).
  split; [exact R|reflexivity].
Qed.

Lemma begin_run (c : conn) :
  answering c -> begin c = (Ok tt, left_open c [Begin]).
Proof. intros Hq. unfold begin. now rewrite await_answered by apply Hq. Qed.

Lemma store_order_run
  (row : Z -> Z -> js_string -> Z -> Z -> orcperson) (novoId novaSeq : Z)
  (nm : js_string) (total : float) (rs : list resolved) (c : conn)
  (t : tables) :
  answering c -> active c = Some t ->
  takes_header (types c) novoId novaSeq total = true ->
  takes_lines (types c) novoId 1 rs = true ->
  store_order row novoId novaSeq nm total rs c
  = (Ok novoId,
     let hdr :=
       row novoId novaSeq nm (bound (types c) total)
         (getdate c (List.length (log c))) in
     let lines :=
       line_rows (types c) novoId 1 rs (getdate c) (S (List.length (log c))) in
     {| durable := with_lines (with_header t hdr) lines;
        active := None;
        log := log c ++ InsertOrcperson hdr :: map InsertOrcpersoni lines ++ [Commit];
        getdate := getdate c; rejects := rejects c; types := types c |}).
Proof.
  intros Hq Ha Th Tl. unfold store_order. unfold bind at 1.
  rewrite (insert_orcperson_run _ _ _ _ _ _ t Hq Ha Th). cbn zeta.
  unfold bind at 1.
  erewrite insert_lines_run by first [exact Hq | exact Tl | reflexivity].
  cbn [durable active log getdate rejects types].
  unfold bind, commit. rewrite await_answered by apply Hq.
  cbn [fst snd]. unfold ret, sent, current.
  cbn [durable active log getdate rejects types].
  rewrite length_app. cbn [List.length].
  replace (List.length (log c) + 1)%nat with (S (List.length (log c))) by lia.
  rewrite <- !app_assoc. reflexivity.
Qed.

Lemma store_order_ok
  (row : Z -> Z -> js_string -> Z -> Z -> orcperson) (novoId novaSeq : Z)
  (nm : js_string) (total : float) (rs : list resolved) (c c' : conn)
  (t : tables) (a : Z) :
  store_order row novoId novaSeq nm total rs c = (Ok a, c') ->
  active c = Some t ->
  a = novoId /\
  takes_header (types c) novoId novaSeq total = true /\
  takes_lines (types c) novoId 1 rs = true /\
  c' = (let hdr :=
          row novoId novaSeq nm (bound (types c) total)
            (getdate c (List.length (log c))) in
        let lines :=
          line_rows (types c) novoId 1 rs (getdate c)
            (S (List.length (log c))) in
        {| durable := with_lines (with_header t hdr) lines;
           active := None;
           log :=
             log c ++ InsertOrcperson hdr :: map InsertOrcpersoni lines ++ [Commit];
           getdate := getdate c; rejects := rejects c; types := types c |}).
Proof.
  intros H Ha. unfold store_order in H.
  apply bind_ok in H. destruct H as ([] & c1 & H1 & H).
  destruct (insert_orcperson_ok _ _ _ _ _ _ _ t H1 Ha) as [Th E1].
  cbn zeta in E1. subst c1.
  apply bind_ok in H. destruct H as ([] & c2 & H2 & H).
  eapply insert_lines_ok in H2; [|reflexivity].
  destruct H2 as [Tl ->]. cbn [types] in Tl.
  apply bind_ok in H. destruct H as ([] & c3 & H3 & H).
  inversion H; subst a c'. clear H.
  unfold commit in H3. apply await_ok in H3. destruct H3 as (_ & _ & ->).
  split; [reflexivity|]. split; [exact Th|]. split; [exact Tl|].
  cbn [fst snd]. unfold sent, current.
  cbn [durable active log getdate rejects types].
  rewrite length_app. cbn [List.length].
  replace (List.length (log c) + 1)%nat with (S (List.length (log c))) by lia.
  rewrite <- !app_assoc. reflexivity.
Qed.

(** *** Variant 2 *)

Lemma V2_customer_name_ok (cli : customer) (nm : js_string) (c c' : conn) :
  V2.customer_name cli c = (Ok nm, c') ->
  named_in_text cli = true /\ nm = V2_name cli /\ c' = c.
Proof.
  unfold V2.customer_name, named_in_text, V2_name.
  destruct (nome cli) as [[[|u s]|[|] text]|]; cbn;
    intros H; inversion H; auto.
Qed.

Lemma V2_customer_name_run (cli : customer) (c : conn) :
  named_in_text cli = true -> V2.customer_name cli c = (Ok (V2_name cli), c).
Proof.
  unfold V2.customer_name, named_in_text, V2_name.
  destruct (nome cli) as [[[|u s]|[|] text]|]; cbn;
    intros H; try reflexivity; discriminate H.
Qed.

(** The body of [try] when it returns. *)
Lemma V2_try_block_ok (cli : customer) (its : list item) (c : conn) (id : Z)
  (c' : conn) :
  V2.try_block cli its c = (Ok id, c') ->
  exists rs,
    found_all (durable c) its = inl rs /\
    named_in_text cli = true /\
    id = fst (next_ids (ORCPERSON (durable c))) /\
    takes_header (types c) id (snd (next_ids (ORCPERSON (durable c))))
      (totalPedido its) = true /\
    takes_lines (types c) id 1 rs = true /\
    c' = committed true
           (V2.header id (snd (next_ids (ORCPERSON (durable c)))) (V2_name cli)
              (bound (types c) (totalPedido its)))
           id its rs c.
Proof.
  intros H. unfold V2.try_block in H.
  apply bind_ok in H. destruct H as ([] & c1 & H1 & H).
  apply begin_ok in H1. destruct H1 as [_ ->].
  apply bind_ok in H. destruct H as (rs & c2 & H2 & H).
  apply resolve_all_ok in H2. destruct H2 as [E ->].
  change (current (left_open c [Begin])) with (durable c) in E.
  apply bind_ok in H. destruct H as (ids & c3 & H3 & H).
  unfold select_next_ids in H3. apply await_ok in H3.
  destruct H3 as (_ & -> & ->). cbn [fst snd] in H.
  apply bind_ok in H. destruct H as (nm & c4 & H4 & H).
  apply V2_customer_name_ok in H4. destruct H4 as (Hn & -> & ->).
  change (current _) with (durable c) in H.
  change (bind (insert_orcperson V2.header ?i ?s ?n ?t) _)
    with (store_order V2.header i s n t rs) in H.
  eapply store_order_ok in H; [|reflexivity].
  destruct H as (-> & Th & Tl & ->).
  exists rs. split; [exact E|]. split; [exact Hn|]. split; [reflexivity|].
  split; [exact Th|]. split; [exact Tl|].
  unfold committed, left_open, sent.
  cbn [durable active log getdate rejects types].
  rewrite !length_app, !length_map. cbn [List.length].
  replace (List.length (log c) + 1 + List.length its + 1)%nat
    with (List.length (log c) + List.length its + 2)%nat by lia.
  rewrite <- !app_assoc. reflexivity.
Qed.

(** The body of [try] on a store that answers, when every sku resolves,
    the name is usable and the driver takes the parameters. *)
Lemma V2_try_block_run (cli : customer) (its : list item) (c : conn)
  (rs : list resolved) :
  answering c ->
  found_all (durable c) its = inl rs ->
  named_in_text cli = true ->
  let ids := next_ids (ORCPERSON (durable c)) in
  takes_header (types c) (fst ids) (snd ids) (totalPedido its) = true ->
  takes_lines (types c) (fst ids) 1 rs = true ->
  V2.try_block cli its c
  = (Ok (fst ids),
     committed true
       (V2.header (fst ids) (snd ids) (V2_name cli)
          (bound (types c) (totalPedido its)))
       (fst ids) its rs c).
Proof.
  intros Hq E Hn ids Th Tl. subst ids.
  unfold V2.try_block. unfold bind at 1. rewrite (begin_run c Hq).
  unfold bind at 1. rewrite resolve_all_run by exact Hq.
  change (current (left_open c [Begin])) with (durable c). rewrite E.
  rewrite (found_all_asked _ _ _ E).
  unfold bind at 1. unfold select_next_ids.
  rewrite await_answered by apply Hq. cbn [fst snd].
  change (current _) with (durable c).
  unfold bind at 1. rewrite V2_customer_name_run by exact Hn.
  change (bind (insert_orcperson V2.header ?i ?s ?n ?t) _)
    with (store_order V2.header i s n t rs).
  erewrite store_order_run by first [exact Hq | exact Th | exact Tl | reflexivity].
  unfold committed, left_open, sent.
  cbn [durable active log getdate rejects types].
  rewrite !length_app, !length_map. cbn [List.length].
  replace (List.length (log c) + 1 + List.length its + 1)%nat
    with (List.length (log c) + List.length its + 2)%nat by lia.
  rewrite <- !app_assoc. reflexivity.
Qed.

(** The body of [try] on a store that answers, when a sku does not
    resolve. *)
Lemma V2_try_block_unresolved (cli : customer) (its : list item) (c : conn)
  (missing : item) :
  answering c ->
  found_all (durable c) its = inr missing ->
  V2.try_block cli its c
  = (Thrown (V2.not_found ++ sku missing),
     left_open c (Begin :: map SelectProduto (asked (durable c) its))).
Proof.
  intros Hq E.
  unfold V2.try_block. unfold bind at 1. rewrite (begin_run c Hq).
  unfold bind at 1. rewrite resolve_all_run by exact Hq.
  change (current (left_open c [Begin])) with (durable c). rewrite E.
  unfold left_open. cbn [durable active log getdate rejects types].
  rewrite <- app_assoc. reflexivity.
Qed.

Lemma V2_after_begin (cli : customer) (its : list item) :
  open_on_throw
    (rs <- resolve_all V2.not_found its ;;
     ids <- select_next_ids true ;;
     nm <- V2.customer_name cli ;;
     store_order V2.header (fst ids) (snd ids) nm (totalPedido its) rs).
Proof.
  apply open_on_throw_bind; [apply inside_tx_resolve_all|intros rs].
  apply open_on_throw_bind; [apply inside_tx_select_next_ids|intros ids].
  apply open_on_throw_bind; [apply inside_tx_customer_name|intros nm].
  apply open_on_throw_store_order.
Qed.

(** The body of [try] when it throws: the durable tables are as they
    were, no rollback was sent, and the transaction is open if [begin]
    was answered. *)
Lemma V2_try_block_thrown (cli : customer) (its : list item) (c : conn)
  (message : string) (c' : conn) :
  V2.try_block cli its c = (Thrown message, c') ->
  durable c' = durable c /\
  exists rest,
    log c' = log c ++ Begin :: rest /\ ~ In Rollback rest /\
    (rejects c (List.length (log c)) = None -> active c' <> None).
Proof.
  intros H. unfold V2.try_block in H.
  apply bind_thrown in H. destruct H as [H | ([] & c1 & H1 & H)].
  - unfold begin in H. apply await_thrown in H. destruct H as [R ->].
    split; [reflexivity|]. exists []. split; [reflexivity|].
    split; [intros []|]. intros R'. congruence.
  - apply begin_ok in H1. destruct H1 as [_ ->].
    assert (Ha : active (left_open c [Begin]) <> None) by discriminate.
    pose proof (V2_after_begin cli its (left_open c [Begin]) message c' Ha H)
      as S.
    destruct S as (D & A & ops & L & R).
    split; [exact D|]. exists ops. cbn [left_open log] in L.
    rewrite L, <- app_assoc. split; [reflexivity|]. split; [exact R|].
    intros _. exact A.
Qed.

(** A request that fails the validation, or that finds the pool
    disconnected, is answered without a statement sent to the store. *)
Lemma V2_criar_pedido_rejects (connected : bool) (b : body) (c : conn) :
  connected = false \/ V2.invalid b = true ->
  V2.criar_pedido connected b c
  = (if connected
     then {| code := 400;
             sent_body :=
               Failed "Dados inválidos (cliente ou itens ausentes)" None |}
     else {| code := 503; sent_body := Failed "Banco Offline" None |},
     c).
Proof.
  unfold V2.criar_pedido, V2.invalid.
  intros [-> | H]; [reflexivity|].
  destruct connected; [|reflexivity]. cbn [negb].
  destruct (cliente b) as [cli|]; [|reflexivity].
  destruct (itens b) as [[|it rest]|]; [reflexivity|discriminate H|reflexivity].
Qed.

(** The reply and the connection of the handler when every sku resolves
    and nothing fails, and when a sku does not resolve. *)
Lemma V2_criar_pedido_created (cli : customer) (it : item) (rest : list item)
  (c : conn) (rs : list resolved) :
  answering c ->
  found_all (durable c) (it :: rest) = inl rs ->
  named_in_text cli = true ->
  let ids := next_ids (ORCPERSON (durable c)) in
  takes_header (types c) (fst ids) (snd ids) (totalPedido (it :: rest)) = true ->
  takes_lines (types c) (fst ids) 1 rs = true ->
  V2.criar_pedido true {| cliente := Some cli; itens := Some (it :: rest) |} c
  = ({| code := 200; sent_body := Created (fst ids) |},
     committed true
       (V2.header (fst ids) (snd ids) (V2_name cli)
          (bound (types c) (totalPedido (it :: rest))))
       (fst ids) (it :: rest) rs c).
Proof.
  intros Hq E Hn ids Th Tl. unfold V2.criar_pedido. cbn [negb cliente itens].
  now rewrite (V2_try_block_run cli (it :: rest) c rs Hq E Hn Th Tl).
Qed.

Lemma V2_criar_pedido_unresolved (cli : customer) (it : item)
  (rest : list item) (c : conn) (missing : item) :
  answering c ->
  found_all (durable c) (it :: rest) = inr missing ->
  V2.criar_pedido true {| cliente := Some cli; itens := Some (it :: rest) |} c
  = (V2_error (V2.not_found ++ sku missing),
     left_open c (Begin :: map SelectProduto (asked (durable c) (it :: rest)))).
Proof.
  intros Hq E. unfold V2.criar_pedido. cbn [negb cliente itens].
  now rewrite (V2_try_block_unresolved cli (it :: rest) c missing Hq E).
Qed.

(** *** Variant 1 *)

Lemma V1_try_block_ok (cli : option customer) (its : option (list item))
  (c : conn) (id : Z) (c' : conn) :
  V1.try_block cli its c = (Ok id, c') ->
  exists l cu rs,
    its = Some l /\ cli = Some cu /\
    found_all (durable c) l = inl rs /\
    id = fst (next_ids (ORCPERSON (durable c))) /\
    takes_header (types c) id (snd (next_ids (ORCPERSON (durable c))))
      (totalPedido l) = true /\
    takes_lines (types c) id 1 rs = true /\
    c' = committed false
           (V1.header id (snd (next_ids (ORCPERSON (durable c))))
              (V1.customer_name cu) (bound (types c) (totalPedido l)))
           id l rs c.
Proof.
  intros H. unfold V1.try_block in H.
  apply bind_ok in H. destruct H as ([] & c1 & H1 & H).
  apply begin_ok in H1. destruct H1 as [_ ->].
  destruct its as [l|]; [|discriminate H].
  apply bind_ok in H. destruct H as (rs & c2 & H2 & H).
  apply resolve_all_ok in H2. destruct H2 as [E ->].
  change (current (left_open c [Begin])) with (durable c) in E.
  apply bind_ok in H. destruct H as (ids & c3 & H3 & H).
  unfold select_next_ids in H3. apply await_ok in H3.
  destruct H3 as (_ & -> & ->). cbn [fst snd] in H.
  destruct cli as [cu|]; [|discriminate H].
  change (current _) with (durable c) in H.
  change (bind (insert_orcperson V1.header ?i ?s ?n ?t) _)
    with (store_order V1.header i s n t rs) in H.
  eapply store_order_ok in H; [|reflexivity].
  destruct H as (-> & Th & Tl & ->).
  exists l, cu, rs. split; [reflexivity|]. split; [reflexivity|].
  split; [exact E|]. split; [reflexivity|].
  split; [exact Th|]. split; [exact Tl|].
  unfold committed, left_open, sent.
  cbn [durable active log getdate rejects types].
  rewrite !length_app, !length_map. cbn [List.length].
  replace (List.length (log c) + 1 + List.length l + 1)%nat
    with (List.length (log c) + List.length l + 2)%nat by lia.
  rewrite <- !app_assoc. reflexivity.
Qed.

Lemma V1_try_block_run (cu : customer) (l : list item) (c : conn)
  (rs : list resolved) :
  answering c ->
  found_all (durable c) l = inl rs ->
  let ids := next_ids (ORCPERSON (durable c)) in
  takes_header (types c) (fst ids) (snd ids) (totalPedido l) = true ->
  takes_lines (types c) (fst ids) 1 rs = true ->
  V1.try_block (Some cu) (Some l) c
  = (Ok (fst ids),
     committed false
       (V1.header (fst ids) (snd ids) (V1.customer_name cu)
          (bound (types c) (totalPedido l)))
       (fst ids) l rs c).
Proof.
  intros Hq E ids Th Tl. subst ids.
  unfold V1.try_block. unfold bind at 1. rewrite (begin_run c Hq).
  unfold bind at 1. rewrite resolve_all_run by exact Hq.
  change (current (left_open c [Begin])) with (durable c). rewrite E.
  rewrite (found_all_asked _ _ _ E).
  unfold bind at 1. unfold select_next_ids.
  rewrite await_answered by apply Hq. cbn [fst snd].
  change (current _) with (durable c).
  change (bind (insert_orcperson V1.header ?i ?s ?n ?t) _)
    with (store_order V1.header i s n t rs).
  erewrite store_order_run by first [exact Hq | exact Th | exact Tl | reflexivity].
  unfold committed, left_open, sent.
  cbn [durable active log getdate rejects types].
  rewrite !length_app, !length_map. cbn [List.length].
  replace (List.length (log c) + 1 + List.length l + 1)%nat
    with (List.length (log c) + List.length l + 2)%nat by lia.
  rewrite <- !app_assoc. reflexivity.
Qed.

Lemma V1_try_block_unresolved (cli : option customer) (l : list item)
  (c : conn) (missing : item) :
  answering c ->
  found_all (durable c) l = inr missing ->
  V1.try_block cli (Some l) c
  = (Thrown (V1.not_found ++ sku missing),
     left_open c (Begin :: map SelectProduto (asked (durable c) l))).
Proof.
  intros Hq E.
  unfold V1.try_block. unfold bind at 1. rewrite (begin_run c Hq).
  unfold bind at 1. rewrite resolve_all_run by exact Hq.
  change (current (left_open c [Begin])) with (durable c). rewrite E.
  unfold left_open. cbn [durable active log getdate rejects types].
  rewrite <- app_assoc. reflexivity.
Qed.

Lemma V1_after_begin (cli : option customer) (its : option (list item)) :
  open_on_throw
    (match its with
     | None => throw "itens is not iterable"
     | Some l =>
         rs <- resolve_all V1.not_found l ;;
         ids <- select_next_ids false ;;
         match cli with
         | None => throw "Cannot read properties of undefined (reading 'nome')"
         | Some c =>
             store_order V1.header (fst ids) (snd ids) (V1.customer_name c)
               (totalPedido l) rs
         end
     end).
Proof.
  destruct its as [l|];
    [|apply open_on_throw_inside, inside_tx_throw].
  apply open_on_throw_bind; [apply inside_tx_resolve_all|intros rs].
  apply open_on_throw_bind; [apply inside_tx_select_next_ids|intros ids].
  destruct cli as [cu|];
    [apply open_on_throw_store_order|apply open_on_throw_inside, inside_tx_throw].
Qed.

Lemma V1_try_block_thrown (cli : option customer) (its : option (list item))
  (c : conn) (message : string) (c' : conn) :
  V1.try_block cli its c = (Thrown message, c') ->
  durable c' = durable c /\
  exists rest,
    log c' = log c ++ Begin :: rest /\ ~ In Rollback rest /\
    (rejects c (List.length (log c)) = None -> active c' <> None).
Proof.
  intros H. unfold V1.try_block in H.
  apply bind_thrown in H. destruct H as [H | ([] & c1 & H1 & H)].
  - unfold begin in H. apply await_thrown in H. destruct H as [R ->].
    split; [reflexivity|]. exists []. split; [reflexivity|].
    split; [intros []|]. intros R'. congruence.
  - apply begin_ok in H1. destruct H1 as [_ ->].
    assert (Ha : active (left_open c [Begin]) <> None) by discriminate.
    assert (S : still_open (left_open c [Begin]) c').
    { apply (V1_after_begin cli its (left_open c [Begin]) message c' Ha).
      destruct its as [l|]; [|exact H]. destruct cli; exact H. }
    destruct S as (D & A & ops & L & R).
    split; [exact D|]. exists ops. cbn [left_open log] in L.
    rewrite L, <- app_assoc. split; [reflexivity|]. split; [exact R|].
    intros _. exact A.
Qed.

Lemma V1_criar_pedido_created (cu : customer) (l : list item) (c : conn)
  (rs : list resolved) :
  answering c ->
  found_all (durable c) l = inl rs ->
  let ids := next_ids (ORCPERSON (durable c)) in
  takes_header (types c) (fst ids) (snd ids) (totalPedido l) = true ->
  takes_lines (types c) (fst ids) 1 rs = true ->
  V1.criar_pedido true {| cliente := Some cu; itens := Some l |} c
  = ({| code := 200; sent_body := Created (fst ids) |},
     committed false
       (V1.header (fst ids) (snd ids) (V1.customer_name cu)
          (bound (types c) (totalPedido l)))
       (fst ids) l rs c).
Proof.
  intros Hq E ids Th Tl. unfold V1.criar_pedido. cbn [negb cliente itens].
  now rewrite (V1_try_block_run cu l c rs Hq E Th Tl).
Qed.

Lemma V1_criar_pedido_unresolved (cli : option customer) (l : list item)
  (c : conn) (missing : item) :
  answering c ->
  found_all (durable c) l = inr missing ->
  V1.criar_pedido true {| cliente := cli; itens := Some l |} c
  = (V1_error (V1.not_found ++ sku missing),
     left_open c (Begin :: map SelectProduto (asked (durable c) l))).
Proof.
  intros Hq E. unfold V1.criar_pedido. cbn [negb cliente itens].
  now rewrite (V1_try_block_unresolved cli l c missing Hq E).
Qed.

(** *** Both variants *)

(** When a handler replies 200 it went through the whole of [try]: every
    item resolved, the id is the one of the allocation query, the driver
    took every parameter, and the connection is the committed one. *)
Lemma created_inversion (b : body) (c : conn) (id : Z) (r : response * conn) :
  r = V1.criar_pedido true b c \/ r = V2.criar_pedido true b c ->
  fst r = {| code := 200; sent_body := Created id |} ->
  exists its rs lk nm hd,
    itens b = Some its /\ found_all (durable c) its = inl rs /\
    id = fst (next_ids (ORCPERSON (durable c))) /\
    (hd = V1.header \/ hd = V2.header) /\
    takes_header (types c) id (snd (next_ids (ORCPERSON (durable c))))
      (totalPedido its) = true /\
    takes_lines (types c) id 1 rs = true /\
    snd r
    = committed lk
        (hd id (snd (next_ids (ORCPERSON (durable c)))) nm
           (bound (types c) (totalPedido its)))
        id its rs c.
Proof.
  intros Hr Hok. destruct b as [cl its]. destruct Hr as [-> | ->].
  - unfold V1.criar_pedido in Hok |- *. cbn [negb cliente itens] in *.
    destruct (V1.try_block cl its c) as [[a|message] c'] eqn:E;
      [|discriminate Hok].
    cbn [fst snd] in *. inversion Hok; subst a. clear Hok.
    apply V1_try_block_ok in E.
    destruct E as (l & cu & rs & -> & -> & E & Hid & Th & Tl & ->).
    exists l, rs, false, (V1.customer_name cu), V1.header.
    rewrite <- Hid. auto 10.
  - unfold V2.criar_pedido in Hok |- *. cbn [negb cliente itens] in *.
    destruct cl as [cli|]; [|discriminate Hok].
    destruct its as [[|it rest]|]; [discriminate Hok| |discriminate Hok].
    destruct (V2.try_block cli (it :: rest) c) as [[a|message] c'] eqn:E;
      [|discriminate Hok].
    cbn [fst snd] in *. inversion Hok; subst a. clear Hok.
    apply V2_try_block_ok in E.
    destruct E as (rs & E & _ & Hid & Th & Tl & ->).
    exists (it :: rest), rs, true, (V2_name cli), V2.header.
    rewrite <- Hid. auto 10.
Qed.

(** A reply other than 200, in either variant and whatever the state of
    the pool: the durable tables are as they were; nothing was sent, or
    [begin] and no rollback, and the transaction is open if [begin] was
    answered. *)
Lemma failed_inversion (connected : bool) (b : body) (c : conn)
  (r : response * conn) :
  r = V1.criar_pedido connected b c \/ r = V2.criar_pedido connected b c ->
  code (fst r) <> 200%Z ->
  durable (snd r) = durable c /\
  (snd r = c \/
   exists rest,
     log (snd r) = log c ++ Begin :: rest /\ ~ In Rollback rest /\
     (rejects c (List.length (log c)) = None -> active (snd r) <> None)).
Proof.
  intros Hr Hno. destruct Hr as [-> | ->].
  - unfold V1.criar_pedido in *. destruct connected; cbn [negb] in *;
      [|split; [reflexivity|now left]].
    destruct (V1.try_block (cliente b) (itens b) c) as [[a|message] c'] eqn:E.
    + now contradiction Hno.
    + cbn [fst snd]. unfold rollback_if_active, transaction_active.
      apply V1_try_block_thrown in E. destruct E as (D & rest & L & R & A).
      split; [exact D|]. right. now exists rest.
  - unfold V2.criar_pedido in *. destruct connected; cbn [negb] in *;
      [|split; [reflexivity|now left]].
    destruct (cliente b) as [cli|]; [|split; [reflexivity|now left]].
    destruct (itens b) as [[|it rest]|]; try (split; [reflexivity|now left]).
    destruct (V2.try_block cli (it :: rest) c) as [[a|message] c'] eqn:E.
    + now contradiction Hno.
    + cbn [fst snd]. unfold rollback_if_active, transaction_active.
      apply V2_try_block_thrown in E. destruct E as (D & rest' & L & R & A).
      split; [exact D|]. right. now exists rest'.
Qed.

(** *** The lines of a committed order *)

Lemma line_rows_quantidade (d : driver) (novoId : Z) (clock : nat -> Z)
  (rs : list resolved) :
  forall (n : Z) (pos : nat),
  map I_QUANTIDADE (line_rows d novoId n rs clock pos) = map qtd (map source rs).
Proof.
  induction rs as [|it rest IH]; intros n pos; cbn; [reflexivity|].
  now rewrite IH.
Qed.

Lemma line_rows_codigoi (d : driver) (novoId : Z) (clock : nat -> Z)
  (rs : list resolved) :
  forall (n : Z) (pos : nat),
  Forall (fun l => I_CODIGOI l = novoId) (line_rows d novoId n rs clock pos).
Proof.
  induction rs as [|it rest IH]; intros n pos; cbn; constructor; auto.
Qed.

(** The MONEY of a line is what the driver bound for the price and for
    the product of the caller. *)
Lemma line_rows_money (d : driver) (novoId : Z) (clock : nat -> Z)
  (rs : list resolved) :
  forall (n : Z) (pos : nat),
  takes_lines d novoId n rs = true ->
  map (fun l => @inl Z string (I_UNITARIO l)) (line_rows d novoId n rs clock pos)
  = map (fun i => sql_Money d (preco i)) (map source rs) /\
  map (fun l => @inl Z string (I_VLTOTAL l)) (line_rows d novoId n rs clock pos)
  = map (fun i => sql_Money d (qtd i * preco i)) (map source rs).
Proof.
  induction rs as [|it rest IH]; intros n pos Ht; cbn [line_rows map];
    [split; reflexivity|].
  cbn [takes_lines] in Ht. apply andb_true_iff in Ht. destruct Ht as [H1 H2].
  destruct (IH (n + 1)%Z (S pos) H2) as [-> ->].
  unfold takes_line in H1. taken H1.
  apply takes_Money_true in T0, T1. cbn [line_row I_UNITARIO I_VLTOTAL].
  rewrite <- T0, <- T1. split; reflexivity.
Qed.

(** The numbers of the lines count up from [n]. *)
Lemma line_rows_item (d : driver) (novoId : Z) (clock : nat -> Z)
  (rs : list resolved) :
  forall (n : Z) (pos : nat),
  map I_ITEM (line_rows d novoId n rs clock pos)
  = map (fun k => (n + Z.of_nat k)%Z) (seq 0 (List.length rs)).
Proof.
  induction rs as [|it rest IH]; intros n pos; cbn [line_rows map List.length seq];
    [reflexivity|].
  rewrite IH. f_equal; [cbn; f_equal; lia|].
  rewrite <- seq_shift, map_map. apply map_ext. intros k. lia.
Qed.

Lemma line_rows_resolved (d : driver) (novoId : Z) (clock : nat -> Z)
  (rs : list resolved) :
  forall (n : Z) (pos : nat),
  map I_CODPRODUTO (line_rows d novoId n rs clock pos) = map codigoInterno rs /\
  map I_DESCRICAO (line_rows d novoId n rs clock pos) = map descricao rs.
Proof.
  induction rs as [|it rest IH]; intros n pos; cbn; [split; reflexivity|].
  destruct (IH (n + 1)%Z (S pos)) as [-> ->]. split; reflexivity.
Qed.

(** *** Scenarios *)

Lemma shop_answers : answering shop.
Proof. intros n. reflexivity. Qed.

(** Scenario (3) of the specification: two units of "A" at 10.0; the
    totals are MONEY, in ten-thousandths. *)
Lemma order_of_two_A :
  let r := V2.criar_pedido true
             {| cliente := Some ana;
                itens := Some [ {| sku := "A"; qtd := 2; preco := 10 |} ] |}
             shop in
  fst r = {| code := 200; sent_body := Created 1 |} /\
  map O_TOTALBRUTO (ORCPERSON (durable (snd r))) = [200000%Z] /\
  map I_ITEM (ORCPERSONI (durable (snd r))) = [1%Z] /\
  map I_VLTOTAL (ORCPERSONI (durable (snd r))) = [200000%Z].
Proof. vm_compute. repeat split. Qed.

(** A price the driver refuses: the header went through, the line does
    not, and the handler returns with the transaction open. *)
Lemma order_with_a_refused_price :
  let r := V2.criar_pedido true
             {| cliente := Some ana;
                itens := Some [ {| sku := "A"; qtd := 1; preco := 1e15 |};
                                {| sku := "B"; qtd := 1; preco := -1e15 |} ] |}
             shop in
  code (fst r) = 422%Z /\
  durable (snd r) = durable shop /\
  List.length (log (snd r)) = 5%nat /\
  active (snd r) <> None.
Proof. vm_compute. repeat split. discriminate. Qed.

(** *** C3: an item that does not resolve *)





(** *** C7: requests that are not valid *)

(** Variant 2 answers them, and a request that finds the pool
    disconnected, with no statement sent: the connection is untouched. *)
Lemma V2_criar_pedido_rejects_example :
  V2.criar_pedido true {| cliente := None; itens := Some [] |} shop
  = ({| code := 400;
        sent_body := Failed "Dados inválidos (cliente ou itens ausentes)" None |},
     shop).
Proof.
  exact (V2_criar_pedido_rejects true {| cliente := None; itens := Some [] |}
           shop (or_intror eq_refl)).
Defined.

(** C7, at the inputs where variant 1 leaves the claim: it has no
    validation.  With an empty [itens] it opens a transaction and commits
    an order of no line and total 0; without [cliente] it opens a
    transaction and runs the lookups and the allocation before the
    TypeError ends the request with a 500; without [itens] it opens a
    transaction before the TypeError does. *)
Theorem V1_criar_pedido_without_validation :
  (let r := V1.criar_pedido true {| cliente := Some ana; itens := Some [] |} shop in
   fst r = {| code := 200; sent_body := Created 1 |} /\
   map O_CODIGO (ORCPERSON (durable (snd r))) = [Some 1%Z] /\
   map O_TOTALBRUTO (ORCPERSON (durable (snd r))) = [0%Z] /\
   ORCPERSONI (durable (snd r)) = [] /\
   List.length (log (snd r)) = 4%nat) /\
  (let r := V1.criar_pedido true
              {| cliente := None;
                 itens := Some [ {| sku := "A"; qtd := 2; preco := 10 |} ] |}
              shop in
   code (fst r) = 500%Z /\
   log (snd r) = [Begin; SelectProduto "A"; SelectNextIds false] /\
   durable (snd r) = durable shop) /\
  (let r := V1.criar_pedido true {| cliente := Some ana; itens := None |} shop in
   code (fst r) = 500%Z /\ log (snd r) = [Begin] /\
   durable (snd r) = durable shop).
Proof. vm_compute. repeat split. Qed.

(** *** C6: the totals *)

(** The sum of the two products in binary64 is the larger of them. *)
Lemma total_large_and_small : totalPedido large_and_small = 500000000000000.
Proof. vm_compute. reflexivity. Qed.

(** The rounding of every day: 0.1 + 0.2. *)
Lemma total_of_tenths :
  totalPedido [ {| sku := "A"; qtd := 1; preco := 0.1 |};
                {| sku := "B"; qtd := 1; preco := 0.2 |} ]
  = 0.30000000000000004 /\
  Qeq_bool
    (exact (totalPedido [ {| sku := "A"; qtd := 1; preco := 0.1 |};
                          {| sku := "B"; qtd := 1; preco := 0.2 |} ]))
    (exact_total [ {| sku := "A"; qtd := 1; preco := 0.1 |};
                   {| sku := "B"; qtd := 1; preco := 0.2 |} ])
  = false.
Proof. vm_compute. split; reflexivity. Qed.

(** C6 as stated fails: the total of a committed header is the MONEY of
    a binary64 sum, which is not always the exact sum: the header of
    1 x 500000000000000 and 1 x 0.01 holds 500000000000000. *)
Lemma header_total_not_exact :
  ~ (forall (b : body) (c : conn) (its : list item) (id : Z) (hdr : orcperson),
        itens b = Some its ->
        fst (V2.criar_pedido true b c) = {| code := 200; sent_body := Created id |} ->
        In hdr (ORCPERSON (durable (snd (V2.criar_pedido true b c)))) ->
        O_CODIGO hdr = Some id ->
        Qeq_bool (amount (O_TOTALBRUTO hdr)) (exact_total its) = true).
Proof.
  intro H.
  assert (E : fst (V2.criar_pedido true
                     {| cliente := Some ana; itens := Some large_and_small |}
                     shop)
              = {| code := 200; sent_body := Created 1 |})
    by (vm_compute; reflexivity).
  assert (I : In (V2.header 1 1 (units "Ana") 5000000000000000000 1700000000004)
                (ORCPERSON
                   (durable
                      (snd (V2.criar_pedido true
                              {| cliente := Some ana;
                                 itens := Some large_and_small |}
                              shop)))))
    by (vm_compute; left; reflexivity).
  specialize
    (H {| cliente := Some ana; itens := Some large_and_small |} shop
       large_and_small 1%Z
       (V2.header 1 1 (units "Ana") 5000000000000000000 1700000000004)
       eq_refl E I eq_refl).
  vm_compute in H. discriminate H.
Qed.

(** C6, amended: in both variants, when the handler replies 200 with id
    [id], it has appended to the durable tables one header and the lines
    of the request, in the order of the request.  Each line carries the
    quantity of the caller, and as unit price and as total the MONEY the
    driver bound for the unit price of the caller and for the binary64
    product of quantity and unit price; the two totals of the header are
    the MONEY the driver bound for the binary64 sum, from 0 and from
    left to right, of those products. *)
Theorem committed_order_totals
  (b : body) (c : conn) (its : list item) (id : Z) (r : response * conn) :
  r = V1.criar_pedido true b c \/ r = V2.criar_pedido true b c ->
  itens b = Some its ->
  fst r = {| code := 200; sent_body := Created id |} ->
  exists (hdr : orcperson) (lines : list orcpersoni),
    ORCPERSON (durable (snd r)) = ORCPERSON (durable c) ++ [hdr] /\
    ORCPERSONI (durable (snd r)) = ORCPERSONI (durable c) ++ lines /\
    O_CODIGO hdr = Some id /\
    Forall (fun l => I_CODIGOI l = id) lines /\
    map I_QUANTIDADE lines = map qtd its /\
    map (fun l => @inl Z string (I_UNITARIO l)) lines
    = map (fun i => sql_Money (types c) (preco i)) its /\
    map (fun l => @inl Z string (I_VLTOTAL l)) lines
    = map (fun i => sql_Money (types c) (qtd i * preco i)) its /\
    sql_Money (types c) (fold_left (fun acc i => acc + qtd i * preco i) its 0)
    = inl (O_TOTALBRUTO hdr) /\
    O_TOTALLIQUIDO hdr = O_TOTALBRUTO hdr.
Proof.
  intros Hr Hits Hok.
  destruct (created_inversion b c id r Hr Hok)
    as (its' & rs & lk & nm & hd & Hits' & E & _ & Hhd & Th & Tl & ->).
  rewrite Hits in Hits'. inversion Hits'; subst its'.
  eexists. eexists.
  cbn [committed durable with_lines with_header ORCPERSON ORCPERSONI].
  split; [reflexivity|]. split; [reflexivity|].
  rewrite line_rows_quantidade.
  destruct (line_rows_money (types c) id (getdate c) rs 1
              (S (List.length (log c) + List.length its + 2)) Tl) as [-> ->].
  rewrite (found_all_source _ _ _ E).
  unfold takes_header in Th. taken Th. apply takes_Money_true in T.
  unfold totalPedido in T.
  destruct Hhd as [-> | ->]; cbn [V1.header V2.header O_CODIGO O_TOTALBRUTO
                                    O_TOTALLIQUIDO];
    repeat split; auto using line_rows_codigoi.
Qed.

Lemma committed_order_totals_example :
  exists (hdr : orcperson) (lines : list orcpersoni),
    ORCPERSON
      (durable
         (snd (V2.criar_pedido true
                 {| cliente := Some ana; itens := Some large_and_small |} shop)))
    = ORCPERSON (durable shop) ++ [hdr] /\
    ORCPERSONI
      (durable
         (snd (V2.criar_pedido true
                 {| cliente := Some ana; itens := Some large_and_small |} shop)))
    = ORCPERSONI (durable shop) ++ lines /\
    O_CODIGO hdr = Some 1%Z /\
    Forall (fun l => I_CODIGOI l = 1%Z) lines /\
    map I_QUANTIDADE lines = map qtd large_and_small /\
    map (fun l => @inl Z string (I_UNITARIO l)) lines
    = map (fun i => sql_Money (types shop) (preco i)) large_and_small /\
    map (fun l => @inl Z string (I_VLTOTAL l)) lines
    = map (fun i => sql_Money (types shop) (qtd i * preco i)) large_and_small /\
    sql_Money (types shop)
      (fold_left (fun acc i => acc + qtd i * preco i) large_and_small 0)
    = inl (O_TOTALBRUTO hdr) /\
    O_TOTALLIQUIDO hdr = O_TOTALBRUTO hdr.
Proof.
  assert (E : fst (V2.criar_pedido true
                     {| cliente := Some ana; itens := Some large_and_small |}
                     shop)
              = {| code := 200; sent_body := Created 1 |})
    by (vm_compute; reflexivity).
  exact
    (committed_order_totals
       {| cliente := Some ana; itens := Some large_and_small |} shop
       large_and_small 1
       (V2.criar_pedido true
          {| cliente := Some ana; itens := Some large_and_small |} shop)
       (or_intror eq_refl) eq_refl E).
Defined.

(** The lines of a committed order are numbered from 1 in the order of
    the request, and carry the code and the name of the product each
    sku resolved to. *)
Theorem committed_order_lines
  (b : body) (c : conn) (its : list item) (id : Z) (r : response * conn) :
  r = V1.criar_pedido true b c \/ r = V2.criar_pedido true b c ->
  itens b = Some its ->
  fst r = {| code := 200; sent_body := Created id |} ->
  exists (rs : list resolved) (lines : list orcpersoni),
    found_all (durable c) its = inl rs /\
    ORCPERSONI (durable (snd r)) = ORCPERSONI (durable c) ++ lines /\
    map I_ITEM lines
    = map (fun k => (1 + Z.of_nat k)%Z) (seq 0 (List.length its)) /\
    map I_CODPRODUTO lines = map codigoInterno rs /\
    map I_DESCRICAO lines = map descricao rs.
Proof.
  intros Hr Hits Hok.
  destruct (created_inversion b c id r Hr Hok)
    as (its' & rs & lk & nm & hd & Hits' & E & _ & _ & _ & _ & ->).
  rewrite Hits in Hits'. inversion Hits'; subst its'.
  exists rs. eexists.
  cbn [committed durable with_lines with_header ORCPERSON ORCPERSONI].
  split; [exact E|]. split; [reflexivity|].
  rewrite line_rows_item.
  destruct (line_rows_resolved (types c) id (getdate c) rs 1
              (S (List.length (log c) + List.length its + 2))) as [-> ->].
  assert (L : List.length rs = List.length its).
  { rewrite <- (found_all_source _ _ _ E). now rewrite length_map. }
  rewrite L. repeat split.
Qed.

Lemma committed_order_lines_example :
  exists (rs : list resolved) (lines : list orcpersoni),
    found_all (durable shop) large_and_small = inl rs /\
    ORCPERSONI
      (durable
         (snd (V2.criar_pedido true
                 {| cliente := Some ana; itens := Some large_and_small |} shop)))
    = ORCPERSONI (durable shop) ++ lines /\
    map I_ITEM lines
    = map (fun k => (1 + Z.of_nat k)%Z) (seq 0 (List.length large_and_small)) /\
    map I_CODPRODUTO lines = map codigoInterno rs /\
    map I_DESCRICAO lines = map descricao rs.
Proof.
  assert (E : fst (V2.criar_pedido true
                     {| cliente := Some ana; itens := Some large_and_small |}
                     shop)
              = {| code := 200; sent_body := Created 1 |})
    by (vm_compute; reflexivity).
  exact
    (committed_order_lines
       {| cliente := Some ana; itens := Some large_and_small |} shop
       large_and_small 1
       (V2.criar_pedido true
          {| cliente := Some ana; itens := Some large_and_small |} shop)
       (or_intror eq_refl) eq_refl E).
Defined.

(** *** C10: the two handlers side by side *)

(** The names agree for a name that is a string of 1 to 50 code units. *)
Lemma customer_names_agree (cli : customer) (s : js_string) :
  nome cli = Some (Str s) -> (1 <= List.length s <= 50)%nat ->
  V1.customer_name cli = V2_name cli.
Proof.
  intros E [Hlo Hhi]. unfold V1.customer_name, V2_name. rewrite E.
  destruct s as [|u s]; [cbn in Hlo; lia|].
  cbn [truthy]. now rewrite firstn_all2 by exact Hhi.
Qed.

(** C10 as stated fails: on the same request and store the two handlers
    commit headers that differ (NOMEUSUARIO). *)
Lemma handlers_not_equal :
  ~ (forall (connected : bool) (b : body) (c : conn),
        fst (V1.criar_pedido connected b c) = fst (V2.criar_pedido connected b c) /\
        durable (snd (V1.criar_pedido connected b c))
        = durable (snd (V2.criar_pedido connected b c))).
Proof.
  intro H.
  destruct
    (H true
       {| cliente := Some ana;
          itens := Some [ {| sku := "A"; qtd := 2; preco := 10 |} ] |}
       shop) as [_ E].
  vm_compute in E. discriminate E.
Qed.

(** C10, amended: for a request with a [cliente], whose name is absent,
    falsy or a string, and a non-empty [itens], on a connected pool and
    a store that answers.  If every sku resolves and the driver takes
    the parameters, both handlers give the same reply (200 and the same
    id), append the same lines and one header each; the headers agree on
    every column but NOMEUSUARIO ("SITE" against "INTEGRACAO") and NOME,
    which is the name of each variant and so the same for a string of 1
    to 50 code units.  If some sku does not resolve, both leave the
    durable tables as they were, variant 1 replying 500 and variant 2
    replying 422. *)
Theorem handlers_side_by_side
  (b : body) (c : conn) (cli : customer) (its : list item) :
  cliente b = Some cli -> itens b = Some its -> its <> [] ->
  answering c -> named_in_text cli = true ->
  (forall rs,
      found_all (durable c) its = inl rs ->
      takes_header (types c) (fst (next_ids (ORCPERSON (durable c))))
        (snd (next_ids (ORCPERSON (durable c)))) (totalPedido its) = true ->
      takes_lines (types c) (fst (next_ids (ORCPERSON (durable c)))) 1 rs
      = true ->
      fst (V1.criar_pedido true b c) = fst (V2.criar_pedido true b c) /\
      code (fst (V1.criar_pedido true b c)) = 200%Z /\
      ORCPERSONI (durable (snd (V1.criar_pedido true b c)))
      = ORCPERSONI (durable (snd (V2.criar_pedido true b c))) /\
      exists h1 h2,
        ORCPERSON (durable (snd (V1.criar_pedido true b c)))
        = ORCPERSON (durable c) ++ [h1] /\
        ORCPERSON (durable (snd (V2.criar_pedido true b c)))
        = ORCPERSON (durable c) ++ [h2] /\
        same_but_texts h1 h2 /\
        O_NOMEUSUARIO h1 = "SITE" /\ O_NOMEUSUARIO h2 = "INTEGRACAO" /\
        O_NOME h1 = V1.customer_name cli /\ O_NOME h2 = V2_name cli /\
        (forall s, nome cli = Some (Str s) ->
                   (1 <= List.length s <= 50)%nat ->
                   O_NOME h1 = O_NOME h2)) /\
  (forall missing,
      found_all (durable c) its = inr missing ->
      durable (snd (V1.criar_pedido true b c)) = durable c /\
      durable (snd (V2.criar_pedido true b c)) = durable c /\
      code (fst (V1.criar_pedido true b c)) = 500%Z /\
      code (fst (V2.criar_pedido true b c)) = 422%Z).
Proof.
  intros Hc Hi Hne Hq Hn. destruct b as [cl its']. cbn in Hc, Hi. subst cl its'.
  destruct its as [|it rest]; [congruence|].
  split.
  - intros rs E Th Tl.
    rewrite (V1_criar_pedido_created cli (it :: rest) c rs Hq E Th Tl).
    rewrite (V2_criar_pedido_created cli it rest c rs Hq E Hn Th Tl).
    cbn [fst snd committed durable with_lines with_header ORCPERSON ORCPERSONI code].
    split; [reflexivity|]. split; [reflexivity|]. split; [reflexivity|].
    eexists. eexists. split; [reflexivity|]. split; [reflexivity|].
    unfold same_but_texts. cbn.
    repeat split. intros s Es Hs. now apply customer_names_agree with s.
  - intros missing E.
    rewrite (V1_criar_pedido_unresolved (Some cli) (it :: rest) c missing Hq E).
    rewrite (V2_criar_pedido_unresolved cli it rest c missing Hq E).
    cbn. repeat split.
Qed.

Lemma handlers_side_by_side_example :
  fst (V1.criar_pedido true
         {| cliente := Some ana;
            itens := Some [ {| sku := "A"; qtd := 2; preco := 10 |} ] |} shop)
  = fst (V2.criar_pedido true
           {| cliente := Some ana;
              itens := Some [ {| sku := "A"; qtd := 2; preco := 10 |} ] |} shop).
Proof.
  assert (Hne : [ {| sku := "A"; qtd := 2; preco := 10 |} ] <> [])
    by discriminate.
  assert (Th : takes_header (types shop)
                 (fst (next_ids (ORCPERSON (durable shop))))
                 (snd (next_ids (ORCPERSON (durable shop))))
                 (totalPedido [ {| sku := "A"; qtd := 2; preco := 10 |} ])
               = true)
    by (vm_compute; reflexivity).
  assert (Tl : takes_lines (types shop)
                 (fst (next_ids (ORCPERSON (durable shop)))) 1
                 [ {| source := {| sku := "A"; qtd := 2; preco := 10 |};
                      codigoInterno := 10; descricao := "CAFE" |} ]
               = true)
    by (vm_compute; reflexivity).
  exact
    (proj1
       (proj1
          (handlers_side_by_side
             {| cliente := Some ana;
                itens := Some [ {| sku := "A"; qtd := 2; preco := 10 |} ] |}
             shop ana [ {| sku := "A"; qtd := 2; preco := 10 |} ]
             eq_refl eq_refl Hne shop_answers eq_refl)
          [ {| source := {| sku := "A"; qtd := 2; preco := 10 |};
               codigoInterno := 10; descricao := "CAFE" |} ]
          eq_refl Th Tl)).
Defined.

End OrderFacts.

(** ** The allocation of order identifiers under concurrent requests *)

Module AllocFacts.
Import Store Tx Orders Concurrent AllocTerms.

Lemma fold_max_ge (col : list (option Z)) : forall (acc : option Z) (k : Z),
  acc = Some k \/ In (Some k) col ->
  exists m, fold_left max_step col acc = Some m /\ k <= m.
Proof.
  induction col as [|x col IH]; intros acc k H; cbn.
  - destruct H as [-> | []]. exists k. split; [reflexivity|lia].
  - destruct H as [-> | [-> | H]].
    + destruct x as [b|]; cbn.
      * destruct (IH (Some (Z.max k b)) (Z.max k b) (or_introl eq_refl))
          as (m & E & Hm).
        exists m. split; [assumption|lia].
      * apply IH. now left.
    + destruct acc as [a|]; cbn.
      * destruct (IH (Some (Z.max a k)) (Z.max a k) (or_introl eq_refl))
          as (m & E & Hm).
        exists m. split; [assumption|lia].
      * apply IH. now left.
    + apply IH. now right.
Qed.

Lemma sql_max_ge (col : list (option Z)) (k : Z) :
  In (Some k) col -> exists m, sql_max col = Some m /\ k <= m.
Proof. intros H. apply (fold_max_ge col None k). now right. Qed.

(** The ids of the allocation query are above every row it read. *)
Lemma next_ids_above (rows : list orcperson) :
  above rows (fst (next_ids rows)) (snd (next_ids rows)).
Proof.
  intros r Hr. unfold next_ids. cbn [fst snd]. split.
  - intros k E.
    destruct (sql_max_ge (map O_CODIGO rows) k) as (m & -> & Hm).
    { rewrite <- E. now apply in_map. }
    cbn. lia.
  - intros q E.
    destruct (sql_max_ge (map O_SEQUENCIA rows) q) as (m & -> & Hm).
    { rewrite <- E. now apply in_map. }
    cbn. lia.
Qed.

Lemma above_incl (small big : list orcperson) (id seq : Z) :
  incl small big -> above big id seq -> above small id seq.
Proof. intros Hi Ha r Hr. apply Ha. now apply Hi. Qed.

Lemma header_ids (v : variant) (id seq : Z) (nm : JS.js_string) (total : Z)
  (now : Z) :
  O_CODIGO (header v id seq nm total now) = Some id /\
  O_SEQUENCIA (header v id seq nm total now) = Some seq.
Proof. destruct v; split; reflexivity. Qed.

Lemma invariant_initial (rows : list orcperson) : invariant (initial rows).
Proof. constructor; cbn; intros; try discriminate; try congruence; auto. Qed.

Lemma set_phase_same (t : nat) (p : phase) (f : nat -> phase) :
  set_phase t p f t = p.
Proof. unfold set_phase. now rewrite Nat.eqb_refl. Qed.

Lemma set_phase_other (t u : nat) (p : phase) (f : nat -> phase) :
  u <> t -> set_phase t p f u = f u.
Proof.
  intros H. unfold set_phase. destruct (Nat.eqb_spec u t); [contradiction|].
  reflexivity.
Qed.

Lemma release_other (t u : nat) : u <> t -> release t (Some u) = Some u.
Proof.
  intros H. unfold release. destruct (Nat.eqb_spec u t); [contradiction|].
  reflexivity.
Qed.


Ltac at_thread t u :=
  destruct (Nat.eq_dec u t) as [->|?];
  [ rewrite ?set_phase_same in *
  | rewrite ?set_phase_other in * by assumption ].

(** The end of a transaction without a commit keeps the invariant. *)
Lemma fail_keeps (s : system) (t : nat) :
  invariant s ->
  invariant
    {| table := table s; lock := release t (lock s);
       phases := set_phase t RolledBack (phases s) |}.
Proof.
  intros [Hl Hf Hr Hs Hd Hx]. constructor; cbn.
  - intros u H. at_thread t u; [cbn in H; congruence|].
    rewrite (Hl u H). now apply release_other.
  - intros u ids H. at_thread t u; [discriminate H|eauto].
  - intros u. at_thread t u; [exact I|auto].
  - intros u. at_thread t u; [exact I|auto].
  - intros u sn i q H. at_thread t u; [discriminate H|eauto].
  - intros u w sn1 i1 q1 sn2 i2 q2 Hne H1 H2.
    at_thread t u; [discriminate H1|].
    at_thread t w; [discriminate H2|eauto].
Qed.

Lemma invariant_exec (s s' : system) (a : action) :
  invariant s -> exec Part000 s a = Some s' -> invariant s'.
Proof.
  intros [Hl Hf Hr Hs Hd Hx] E.
  destruct a as [t|t|t nm its now|t|t]; cbn in E;
    destruct (phases s t) eqn:Ep; try discriminate E.
  - (* Start *)
    inversion E; subst s'; clear E. constructor; cbn.
    + intros u H. at_thread t u; [cbn in H; congruence|auto].
    + intros u ids H. at_thread t u; [discriminate H|eauto].
    + intros u. at_thread t u; [exact I|auto].
    + intros u. at_thread t u; [cbn; apply incl_refl|auto].
    + intros u sn i q H. at_thread t u; [discriminate H|eauto].
    + intros u w sn1 i1 q1 sn2 i2 q2 Hne H1 H2.
      at_thread t u; [discriminate H1|].
      at_thread t w; [discriminate H2|eauto].
  - (* Allocate *)
    destruct (lock s) eqn:El; [discriminate E|].
    inversion E; subst s'; clear E. constructor; cbn.
    + intros u H. at_thread t u; [reflexivity|].
      specialize (Hl u H). congruence.
    + intros u ids H. at_thread t u.
      * cbn in H. inversion H. reflexivity.
      * eauto.
    + intros u. at_thread t u; [exact I|auto].
    + intros u. at_thread t u; [|auto].
      specialize (Hs t). rewrite Ep in Hs. exact Hs.
    + intros u sn i q H. at_thread t u; [discriminate H|eauto].
    + intros u w sn1 i1 q1 sn2 i2 q2 Hne H1 H2.
      at_thread t u; [discriminate H1|].
      at_thread t w; [discriminate H2|eauto].
  - (* InsertHeader *)
    inversion E; subst s'; clear E. constructor; cbn.
    + intros u H. at_thread t u; [|auto].
      apply Hl. rewrite Ep. discriminate.
    + intros u ids H. at_thread t u; [|eauto].
      apply (Hf t). rewrite Ep. exact H.
    + intros u. at_thread t u; [|auto]. cbn. split; reflexivity.
    + intros u. at_thread t u; [|auto].
      specialize (Hs t). rewrite Ep in Hs. exact Hs.
    + intros u sn i q H. at_thread t u; [discriminate H|eauto].
    + intros u w sn1 i1 q1 sn2 i2 q2 Hne H1 H2.
      at_thread t u; [discriminate H1|].
      at_thread t w; [discriminate H2|eauto].
  - (* CommitTx *)
    inversion E; subst s'; clear E.
    assert (Hmine : lock s = Some t) by (apply Hl; rewrite Ep; discriminate).
    assert (Hids : (novoId, novaSeq) = next_ids (table s))
      by (apply (Hf t); rewrite Ep; reflexivity).
    assert (Hrow : O_CODIGO row = Some novoId /\ O_SEQUENCIA row = Some novaSeq)
      by (specialize (Hr t); rewrite Ep in Hr; exact Hr).
    assert (Hin : incl seen (table s))
      by (specialize (Hs t); rewrite Ep in Hs; exact Hs).
    assert (Habove : above (table s) novoId novaSeq).
    { pose proof (next_ids_above (table s)) as A.
      rewrite <- Hids in A. exact A. }
    assert (Hidle : forall u, u <> t -> pending (phases s u) = None).
    { intros u Hu. destruct (pending (phases s u)) eqn:Eu; [|reflexivity].
      assert (lock s = Some u) by (apply Hl; congruence). congruence. }
    constructor; cbn.
    + intros u H. at_thread t u; [cbn in H; congruence|].
      rewrite Hidle in H by assumption. congruence.
    + intros u ids H. at_thread t u; [discriminate H|].
      rewrite Hidle in H by assumption. discriminate H.
    + intros u. at_thread t u; [exact I|].
      specialize (Hr u). specialize (Hidle u n).
      destruct (phases s u); try exact I. discriminate Hidle.
    + intros u. at_thread t u; [exact I|].
      specialize (Hs u). destruct (phases s u); cbn in *; auto using incl_appl.
    + intros u sn i q H. at_thread t u.
      * inversion H; subst. split; [eapply above_incl; eauto|].
        exists row. split; [apply in_or_app; right; now left|exact Hrow].
      * destruct (Hd u sn i q H) as (A & r & Hr' & B). split; [exact A|].
        exists r. split; [apply in_or_app; now left|exact B].
    + intros u w sn1 i1 q1 sn2 i2 q2 Hne H1 H2.
      at_thread t u.
      * at_thread t w; [congruence|]. inversion H1; subst.
        destruct (Hd w sn2 i2 q2 H2) as (_ & r & Hr' & B1 & B2).
        destruct (Habove r Hr') as [A1 A2].
        specialize (A1 i2 B1). specialize (A2 q2 B2). lia.
      * at_thread t w; [|eauto]. inversion H2; subst.
        destruct (Hd u sn1 i1 q1 H1) as (_ & r & Hr' & B1 & B2).
        destruct (Habove r Hr') as [A1 A2].
        specialize (A1 i1 B1). specialize (A2 q1 B2). lia.
  - (* Fail, before the allocation *)
    inversion E; subst s'; clear E. now apply fail_keeps.
  - (* Fail, holding the ids *)
    inversion E; subst s'; clear E. now apply fail_keeps.
  - (* Fail, after the header *)
    inversion E; subst s'; clear E. now apply fail_keeps.
Qed.

Lemma invariant_exec_all (l : list action) : forall s s' : system,
  invariant s -> exec_all Part000 s l = Some s' -> invariant s'.
Proof.
  induction l as [|a l IH]; intros s s' Hi E; cbn in E.
  - now inversion E; subst.
  - destruct (exec Part000 s a) as [s1|] eqn:E1; [|discriminate E].
    apply (IH s1 s'); [|exact E]. now apply invariant_exec with s a.
Qed.

Lemma invariant_reachable (rows : list orcperson) (s : system) :
  reachable Part000 rows s -> invariant s.
Proof.
  intros [l E]. apply (invariant_exec_all l (initial rows) s); [|exact E].
  apply invariant_initial.
Qed.

(** One request at a time, in either variant: the order a handler
    commits has an id and a sequence above those of every order that
    was in the table. *)
Theorem new_order_ids_above_existing
  (b : body) (c : conn) (id : Z) (r : response * conn) :
  r = V1.criar_pedido true b c \/ r = V2.criar_pedido true b c ->
  fst r = {| code := 200; sent_body := Created id |} ->
  exists hdr seq,
    ORCPERSON (durable (snd r)) = ORCPERSON (durable c) ++ [hdr] /\
    O_CODIGO hdr = Some id /\ O_SEQUENCIA hdr = Some seq /\
    above (ORCPERSON (durable c)) id seq.
Proof.
  intros Hr Hok.
  destruct (OrderFacts.created_inversion b c id r Hr Hok)
    as (its & rs & lk & nm & hd & _ & _ & -> & Hhd & _ & _ & ->).
  eexists. exists (snd (next_ids (ORCPERSON (durable c)))).
  cbn [OrderTerms.committed durable OrderTerms.with_lines
         OrderTerms.with_header ORCPERSON].
  split; [reflexivity|].
  split; [destruct Hhd as [-> | ->]; reflexivity|].
  split; [destruct Hhd as [-> | ->]; reflexivity|].
  apply next_ids_above.
Qed.

Lemma new_order_ids_above_existing_example :
  exists hdr seq,
    ORCPERSON
      (durable
         (snd (V2.criar_pedido true
                 {| cliente := Some OrderTerms.ana; itens := Some two_A |}
                 OrderTerms.shop)))
    = ORCPERSON (durable OrderTerms.shop) ++ [hdr] /\
    O_CODIGO hdr = Some 1 /\ O_SEQUENCIA hdr = Some seq /\
    above (ORCPERSON (durable OrderTerms.shop)) 1 seq.
Proof.
  assert (E : fst (V2.criar_pedido true
                     {| cliente := Some OrderTerms.ana; itens := Some two_A |}
                     OrderTerms.shop)
              = {| code := 200; sent_body := Created 1 |})
    by (vm_compute; reflexivity).
  exact
    (new_order_ids_above_existing
       {| cliente := Some OrderTerms.ana; itens := Some two_A |}
       OrderTerms.shop 1
       (V2.criar_pedido true
          {| cliente := Some OrderTerms.ana; itens := Some two_A |}
          OrderTerms.shop)
       (or_intror eq_refl) E).
Defined.

(** Variant 2 under any interleaving of any number of requests: no two
    requests hold allocated ids at the same time; two requests that
    committed were given different ids and different sequences; and a
    request that committed was given an id and a sequence above those of
    every order committed when it began. *)
Theorem locking_read_serializes
  (rows : list orcperson) (s : system) (t u : nat) :
  reachable Part000 rows s -> t <> u ->
  (pending (phases s t) = None \/ pending (phases s u) = None) /\
  (forall seen1 id1 seq1 seen2 id2 seq2,
      phases s t = Committed seen1 id1 seq1 ->
      phases s u = Committed seen2 id2 seq2 ->
      id1 <> id2 /\ seq1 <> seq2) /\
  (forall seen id seq,
      phases s t = Committed seen id seq -> above seen id seq).
Proof.
  intros Hr Hne. destruct (invariant_reachable rows s Hr) as [Hl Hf _ _ Hd Hx].
  split; [|split].
  - destruct (pending (phases s t)) eqn:Et; [|now left].
    destruct (pending (phases s u)) eqn:Eu; [|now right].
    assert (lock s = Some t) by (apply Hl; congruence).
    assert (lock s = Some u) by (apply Hl; congruence).
    congruence.
  - intros. eapply Hx; eauto.
  - intros seen id seq H. now destruct (Hd t seen id seq H).
Qed.

Lemma locking_read_serializes_example :
  (pending (phases in_turn_end 0%nat) = None \/
   pending (phases in_turn_end 1%nat) = None) /\
  (forall seen1 id1 seq1 seen2 id2 seq2,
      phases in_turn_end 0%nat = Committed seen1 id1 seq1 ->
      phases in_turn_end 1%nat = Committed seen2 id2 seq2 ->
      id1 <> id2 /\ seq1 <> seq2) /\
  (forall seen id seq,
      phases in_turn_end 0%nat = Committed seen id seq -> above seen id seq).
Proof.
  apply (locking_read_serializes one_order in_turn_end 0 1).
  - exists in_turn. reflexivity.
  - discriminate.
Defined.

(** The two requests of that schedule were given (6, 8) and (7, 9). *)
Lemma in_turn_ids :
  phases in_turn_end 0%nat = Committed one_order 6 8 /\
  phases in_turn_end 1%nat = Committed one_order 7 9.
Proof. split; reflexivity. Qed.

(** The statements of the interleaving model are those of the handler:
    a request that runs alone and commits leaves the ORCPERSON the
    handler of its variant leaves. *)
Lemma alone_as_handler (cli : customer) (it : item) (rest : list item)
  (c : conn) (rs : list resolved) :
  OrderTerms.answering c ->
  OrderTerms.found_all (durable c) (it :: rest) = inl rs ->
  OrderTerms.named_in_text cli = true ->
  OrderTerms.takes_header (types c) (fst (next_ids (ORCPERSON (durable c))))
    (snd (next_ids (ORCPERSON (durable c)))) (totalPedido (it :: rest)) = true ->
  OrderTerms.takes_lines (types c) (fst (next_ids (ORCPERSON (durable c)))) 1 rs
  = true ->
  let now := getdate c (List.length (log c) + List.length (it :: rest) + 2) in
  let total := OrderTerms.bound (types c) (totalPedido (it :: rest)) in
  option_map table
    (exec_all Part000 (initial (ORCPERSON (durable c)))
       (alone (OrderTerms.V2_name cli) total now))
  = Some (ORCPERSON
            (durable
               (snd (V2.criar_pedido true
                       {| cliente := Some cli; itens := Some (it :: rest) |}
                       c)))) /\
  option_map table
    (exec_all Agente (initial (ORCPERSON (durable c)))
       (alone (V1.customer_name cli) total now))
  = Some (ORCPERSON
            (durable
               (snd (V1.criar_pedido true
                       {| cliente := Some cli; itens := Some (it :: rest) |}
                       c)))).
Proof.
  intros Hq E Hn Th Tl now total.
  rewrite (OrderFacts.V2_criar_pedido_created cli it rest c rs Hq E Hn Th Tl).
  rewrite (OrderFacts.V1_criar_pedido_created cli (it :: rest) c rs Hq E Th Tl).
  split; reflexivity.
Qed.

(** C2, at the input where variant 1 leaves the claim: its read of the
    maxima takes no lock, so two requests that both run it before either
    inserts are given the same id and the same sequence, and both
    commit; under variant 2 the second read waits, and the same
    schedule cannot run. *)
Theorem plain_read_allocates_twice :
  match exec_all Agente (initial one_order) racing with
  | Some s =>
      phases s 0%nat = Committed one_order 6 8 /\
      phases s 1%nat = Committed one_order 6 8 /\
      map O_CODIGO (table s) = [Some 5; Some 6; Some 6] /\
      map O_SEQUENCIA (table s) = [Some 7; Some 8; Some 8]
  | None => False
  end /\
  exec_all Part000 (initial one_order) racing = None.
Proof. vm_compute. repeat split. Qed.

End AllocFacts.

(** ** GET /checar-estoque/:sku *)

Module StockFacts.
Import Store Detect Tx Orders Routes RouteTerms.

Lemma or_zero_SUM (col : list Z) : or_zero (SUM col) = sum col.
Proof.
  destruct col as [|x col]; [reflexivity|].
  cbn [SUM or_zero]. destruct (Z.eqb_spec (sum (x :: col)) 0) as [E|]; congruence.
Qed.

Lemma estoque_is_clamped_sum (sku : string) (db : tables) :
  or_zero (estoque_query sku db)
  = sum (filter (fun e => 0 <=? e) (location_stocks sku db)).
Proof.
  unfold estoque_query, location_stocks. rewrite or_zero_SUM.
  rewrite <- DetectFacts.sum_clamp_drops_negatives. now rewrite map_map.
Qed.

(** In both variants, on a connected pool and when the query runs, the
    stock of a sku is answered 200 with the sum of the stocks, of the
    locations of the products that carry the sku, that are not
    negative; the answer is never negative. *)
Theorem checar_estoque_value (sku : string) (db : tables) :
  let estoque := sum (filter (fun e => 0 <=? e) (location_stocks sku db)) in
  V1_checar_estoque true sku None db
  = {| status := 200; json := StockReply sku estoque |} /\
  V2_checar_estoque true sku None db
  = {| status := 200; json := StockReply sku estoque |} /\
  0 <= estoque.
Proof.
  cbn zeta. unfold V1_checar_estoque, V2_checar_estoque. cbn [negb].
  rewrite estoque_is_clamped_sum. repeat split.
  rewrite <- estoque_is_clamped_sum. unfold estoque_query.
  rewrite or_zero_SUM.
  rewrite <- (map_map (fun r => L_EST_ATUAL (snd r)) clamp).
  apply DetectFacts.sum_clamp_nonneg.
Qed.

(** A sku that no product with a location carries (an unknown sku, or a
    product without any location) is answered 200 with stock 0, not
    with an error. *)
Theorem checar_estoque_unknown_sku (sku : string) (db : tables) :
  (forall p l, In p (PRODUTOS db) -> In l (PRODLOJAS db) ->
               P_CBARRA p = Some sku -> P_CODIGO p <> L_CODIGO l) ->
  V1_checar_estoque true sku None db
  = {| status := 200; json := StockReply sku 0 |} /\
  V2_checar_estoque true sku None db
  = {| status := 200; json := StockReply sku 0 |}.
Proof.
  intros H.
  assert (E : filter (carries sku) (joined db) = []).
  { destruct (filter (carries sku) (joined db)) as [|[p l] rest] eqn:F;
      [reflexivity|].
    assert (Hin : In (p, l) (filter (carries sku) (joined db)))
      by (rewrite F; now left).
    apply filter_In in Hin. destruct Hin as [Hj Hc].
    apply DetectFacts.in_joined in Hj. destruct Hj as (Hp & Hl & Hcode).
    unfold carries in Hc. cbn [fst] in Hc.
    destruct (P_CBARRA p) as [s|] eqn:Es; [|discriminate Hc].
    apply String.eqb_eq in Hc. subst s.
    exfalso. exact (H p l Hp Hl Es Hcode). }
  unfold V1_checar_estoque, V2_checar_estoque, estoque_query. cbn [negb].
  rewrite E. split; reflexivity.
Qed.

Lemma checar_estoque_unknown_sku_example :
  V1_checar_estoque true "ZZZ" None DetectTerms.two_products
  = {| status := 200; json := StockReply "ZZZ" 0 |} /\
  V2_checar_estoque true "ZZZ" None DetectTerms.two_products
  = {| status := 200; json := StockReply "ZZZ" 0 |}.
Proof.
  apply (checar_estoque_unknown_sku "ZZZ" DetectTerms.two_products).
  intros p l Hp Hl E.
  cbn in Hp. destruct Hp as [<- | [<- | []]]; discriminate E.
Defined.

End StockFacts.

(** ** The batch against the stock lookup, the prices, and the cursor *)

Module BatchFacts.
Import Store Detect Routes RouteTerms.

Lemma sum_filter_le {A : Type} (c : A -> Z) (p q : A -> bool) (l : list A) :
  (forall x, 0 <= c x) -> (forall x, p x = true -> q x = true) ->
  sum (map c (filter p l)) <= sum (map c (filter q l)).
Proof.
  intros Hc Hpq. unfold sum.
  induction l as [|x l IH]; cbn [filter]; [cbn; lia|].
  destruct (p x) eqn:Ep.
  - rewrite (Hpq x Ep). cbn [map fold_right]. lia.
  - destruct (q x); cbn [map fold_right]; [|exact IH].
    specialize (Hc x). lia.
Qed.

Lemma filter_filter_and {A : Type} (p q : A -> bool) (l : list A) :
  filter q (filter p l) = filter (fun x => p x && q x) l.
Proof.
  induction l as [|x l IH]; [reflexivity|].
  cbn [filter]. destruct (p x); cbn [filter andb]; [|exact IH].
  destruct (q x); now rewrite IH.
Qed.

Lemma clamp_nonneg (e : Z) : 0 <= clamp e.
Proof. unfold clamp. destruct (e <? 0) eqn:E; [lia|]. apply Z.ltb_ge in E. lia. Qed.

(** A row with a sku that falls in the group of [k] carries [k]. *)
Lemma in_group_carries (k : string) (r : produto * prodloja) :
  has_sku (fst r) = true -> String.eqb (key r) k = true -> carries k r = true.
Proof.
  unfold has_sku, key, carries. destruct (P_CBARRA (fst r)); [|discriminate].
  now intros _ E.
Qed.

Lemma carries_in_group (k : string) (r : produto * prodloja) :
  k <> "" -> carries k r = true ->
  has_sku (fst r) = true /\ String.eqb (key r) k = true.
Proof.
  unfold has_sku, key, carries. intros Hk.
  destruct (P_CBARRA (fst r)) as [s|]; [|discriminate].
  intros E. split; [|exact E]. apply String.eqb_eq in E. subst s.
  destruct (String.eqb_spec k ""); [contradiction|reflexivity].
Qed.

(** The total of a group is at most the stock of its sku, whatever the
    test on the change. *)
Lemma group_total_le_estoque (changed : produto * prodloja -> bool)
  (db : tables) (k : string) :
  sum (map (fun r => clamp (L_EST_ATUAL (snd r)))
         (group k (filter (fun r => changed r && has_sku (fst r)) (joined db))))
  <= or_zero (estoque_query k db).
Proof.
  unfold group, estoque_query. rewrite StockFacts.or_zero_SUM.
  rewrite filter_filter_and.
  apply sum_filter_le; [intros x; apply clamp_nonneg|].
  intros x H. apply andb_true_iff in H. destruct H as [H Hk].
  apply andb_true_iff in H. destruct H as [_ Hs].
  now apply in_group_carries.
Qed.

Lemma group_total_eq_estoque (changed : produto * prodloja -> bool)
  (db : tables) (k : string) :
  k <> "" ->
  (forall r, In r (joined db) -> carries k r = true -> changed r = true) ->
  sum (map (fun r => clamp (L_EST_ATUAL (snd r)))
         (group k (filter (fun r => changed r && has_sku (fst r)) (joined db))))
  = or_zero (estoque_query k db).
Proof.
  intros Hk Hall. unfold group, estoque_query. rewrite StockFacts.or_zero_SUM.
  rewrite filter_filter_and. f_equal. f_equal.
  apply filter_ext_in. intros r Hr.
  destruct (carries k r) eqn:Ec.
  - destruct (carries_in_group k r Hk Ec) as [-> ->].
    now rewrite (Hall r Hr Ec).
  - destruct (changed r && has_sku (fst r)) eqn:E1; [|reflexivity].
    apply andb_true_iff in E1. destruct E1 as [_ Hs]. cbn [andb].
    destruct (String.eqb (key r) k) eqn:E2; [|reflexivity].
    rewrite (in_group_carries k r Hs E2) in Ec. discriminate Ec.
Qed.

(** The stock a batch of variant 2 reports for a sku is at most what
    GET /checar-estoque answers for that sku on the same tables: the
    batch counts the locations of the products that changed only.  The
    two are equal when every product that carries the sku changed
    after the cursor (so whenever one product only carries it). *)
Theorem batch_stock_against_lookup
  (db : tables) (lastCheck : Z) (u : update) :
  In u (V2.detect lastCheck db) ->
  total_stock u <= or_zero (estoque_query (sku u) db) /\
  ((forall p, In p (PRODUTOS db) -> P_CBARRA p = Some (sku u) ->
              exists t, P_DATA_ALTERACAO p = Some t /\ lastCheck < t) ->
   V2_checar_estoque true (sku u) None db
   = {| status := 200; json := StockReply (sku u) (total_stock u) |}).
Proof.
  intros Hu. apply DetectFacts.in_select_grouped in Hu.
  destruct Hu as (r0 & Hr0 & ->). cbn [sku total_stock aggregate].
  split; [apply group_total_le_estoque|].
  intros Hall. unfold V2_checar_estoque. cbn [negb]. f_equal. f_equal.
  symmetry. unfold V2.matching. apply group_total_eq_estoque.
  - apply filter_In in Hr0. destruct Hr0 as [_ H].
    apply andb_true_iff in H. destruct H as [_ Hs].
    unfold has_sku in Hs. unfold key.
    destruct (P_CBARRA (fst r0)) as [s|]; [|discriminate Hs].
    intros ->. discriminate Hs.
  - intros [p l] Hr Hc. apply DetectFacts.in_joined in Hr.
    destruct Hr as (Hp & _ & _). unfold carries in Hc. cbn [fst] in Hc.
    destruct (P_CBARRA p) as [s|] eqn:Es; [|discriminate Hc].
    apply String.eqb_eq in Hc. subst s.
    destruct (Hall p Hp Es) as (t & Et & Hlt).
    unfold V2.changed_since. cbn [fst]. rewrite Et. now apply Z.ltb_lt.
Qed.

Lemma batch_stock_against_lookup_example :
  7 <= or_zero (estoque_query "789A" DetectTerms.two_products).
Proof.
  apply (proj1
    (batch_stock_against_lookup DetectTerms.two_products 1000
       {| sku := "789A"; name := "CAFE"; total_stock := 7; price := 110000 |}
       (or_introl eq_refl))).
Defined.

Lemma fold_max_in_and_above (rest : list Z) : forall x : Z,
  In (fold_left Z.max rest x) (x :: rest) /\
  forall y, In y (x :: rest) -> y <= fold_left Z.max rest x.
Proof.
  induction rest as [|z rest IH]; intros x; cbn [fold_left].
  - split; [now left|]. intros y [<- | []]. lia.
  - destruct (IH (Z.max x z)) as [Hin Hle]. split.
    + destruct Hin as [E | Hin]; [|right; now right].
      rewrite <- E. destruct (Z.max_spec x z) as [[_ ->] | [_ ->]];
        [right; now left | now left].
    + intros y [<- | [<- | Hy]].
      * specialize (Hle (Z.max x z) (or_introl eq_refl)). lia.
      * specialize (Hle (Z.max x z) (or_introl eq_refl)). lia.
      * apply Hle. now right.
Qed.

Lemma price_of_group (rows : list (produto * prodloja)) (u : update) :
  In u (select_grouped rows) ->
  (exists r, In r (group (sku u) rows) /\ price u = L_PCO_VENDA (snd r)) /\
  (forall r, In r (group (sku u) rows) -> L_PCO_VENDA (snd r) <= price u).
Proof.
  intros Hu. apply DetectFacts.in_select_grouped in Hu.
  destruct Hu as (r0 & Hr0 & ->). cbn [sku price aggregate].
  assert (Hg : In r0 (group (key r0) rows)).
  { apply filter_In. split; [exact Hr0|apply String.eqb_refl]. }
  destruct (group (key r0) rows) as [|g rest]; [contradiction|].
  cbn [map MAX].
  destruct (fold_max_in_and_above
              (map (fun r => L_PCO_VENDA (snd r)) rest) (L_PCO_VENDA (snd g)))
    as [Hin Hle].
  split.
  - destruct Hin as [E | Hin].
    + exists g. split; [now left|now rewrite <- E].
    + apply in_map_iff in Hin. destruct Hin as (r & E & Hr).
      exists r. split; [now right|now rewrite <- E].
  - intros r [<- | Hr]; apply Hle; [now left|].
    right. exact (in_map (fun r1 => L_PCO_VENDA (snd r1)) rest r Hr).
Qed.

(** In a batch of either variant the price of a sku is the price of one
    of the locations that went into its row, and no such location has a
    higher one. *)
Theorem batch_price_is_highest
  (db : tables) (lastCheck getdate : Z) (u : update) :
  (In u (V2.detect lastCheck db) ->
   (exists r, In r (group (sku u) (V2.matching lastCheck db)) /\
              price u = L_PCO_VENDA (snd r)) /\
   (forall r, In r (group (sku u) (V2.matching lastCheck db)) ->
              L_PCO_VENDA (snd r) <= price u)) /\
  (In u (V1.detect getdate db) ->
   (exists r, In r (group (sku u) (V1.matching getdate db)) /\
              price u = L_PCO_VENDA (snd r)) /\
   (forall r, In r (group (sku u) (V1.matching getdate db)) ->
              L_PCO_VENDA (snd r) <= price u)).
Proof. split; apply price_of_group. Qed.

Lemma batch_price_is_highest_example :
  (exists r, In r (group "789A" (V2.matching 1000 DetectTerms.two_products)) /\
             110000 = L_PCO_VENDA (snd r)) /\
  (forall r, In r (group "789A" (V2.matching 1000 DetectTerms.two_products)) ->
             L_PCO_VENDA (snd r) <= 110000).
Proof.
  exact (proj1
    (batch_price_is_highest DetectTerms.two_products 1000 0
       {| sku := "789A"; name := "CAFE"; total_stock := 7; price := 110000 |})
    (or_introl eq_refl)).
Defined.

Lemma changed_since_mono (c1 c2 : Z) (r : produto * prodloja) :
  c1 <= c2 -> V2.changed_since c2 r = true -> V2.changed_since c1 r = true.
Proof.
  unfold V2.changed_since. intros Hc. destruct (P_DATA_ALTERACAO (fst r)); [|easy].
  intros H. apply Z.ltb_lt in H. apply Z.ltb_lt. lia.
Qed.

(** An earlier cursor detects more: every sku in the batch of a cursor
    is in the batch of any earlier cursor on the same tables, with a
    stock that is not smaller. *)
Theorem detect_earlier_cursor_covers
  (db : tables) (earlier later : Z) (u : update) :
  earlier <= later -> In u (V2.detect later db) ->
  exists u', In u' (V2.detect earlier db) /\
             sku u' = sku u /\ total_stock u <= total_stock u'.
Proof.
  intros Hc Hu. apply DetectFacts.in_select_grouped in Hu.
  destruct Hu as (r0 & Hr0 & ->).
  exists (aggregate (key r0) (V2.matching earlier db)).
  split; [|split; [reflexivity|]].
  - apply DetectFacts.in_select_grouped. exists r0. split; [|reflexivity].
    apply filter_In in Hr0. destruct Hr0 as [Hj H].
    apply andb_true_iff in H. destruct H as [H1 H2].
    apply filter_In. split; [exact Hj|].
    apply andb_true_iff. split; [|exact H2].
    now apply changed_since_mono with later.
  - cbn [total_stock aggregate]. unfold group, V2.matching.
    rewrite !filter_filter_and.
    apply sum_filter_le; [intros x; apply clamp_nonneg|].
    intros x H. apply andb_true_iff in H. destruct H as [H Hk].
    apply andb_true_iff in H. destruct H as [H1 H2].
    rewrite (changed_since_mono earlier later x Hc H1), H2, Hk. reflexivity.
Qed.

Lemma detect_earlier_cursor_covers_example :
  exists u', In u' (V2.detect 500 DetectTerms.two_products) /\
             sku u' = "789A" /\ 7 <= total_stock u'.
Proof.
  assert (H : 500 <= 1000) by lia.
  exact (detect_earlier_cursor_covers DetectTerms.two_products 500 1000
           {| sku := "789A"; name := "CAFE"; total_stock := 7; price := 110000 |}
           H (or_introl eq_refl)).
Defined.

End BatchFacts.

(** ** The flow of the cursor from cycle to cycle *)

Module FlowFacts.
Import JS FS Store Detect Net EventLoop FlowTerms.

Lemma monitorarMudancas_advances (w : V2.world) (f : fs) :
  V2.monitorarMudancas w true f
  = if advances w f then V2.updateLastSyncTime (V2.clock_start w) f else f.
Proof.
  unfold V2.monitorarMudancas, advances. cbn [negb].
  destruct (V2.run_query w (V2.getLastSyncTime (V2.clock_default w) f))
    as [rows|message]; [|reflexivity].
  destruct (0 <? List.length rows)%nat; [|reflexivity].
  now destruct (axios_resolves (V2.run_post w rows)).
Qed.

(** No change is lost between two cycles: after a cycle that advanced
    the cursor on a file system that can be written and read, the next
    cycle posts one batch, and that batch has a row for every sku of a
    product with a location whose DATA_ALTERACAO is strictly after the
    start of the first cycle (the store answering the query of the
    second cycle on the tables [db]). *)
Theorem change_after_cycle_start_is_posted_next
  (w1 w2 : V2.world) (f : fs) (db : tables)
  (p : produto) (l : prodloja) (s : string) (t : Z) :
  writable f = true -> readable f = true -> advances w1 f = true ->
  V2.run_query w2 (Some (V2.clock_start w1))
  = Recordset (V2.detect (V2.clock_start w1) db) ->
  In p (PRODUTOS db) -> In l (PRODLOJAS db) -> P_CODIGO p = L_CODIGO l ->
  P_CBARRA p = Some s -> s <> "" ->
  P_DATA_ALTERACAO p = Some t -> V2.clock_start w1 < t ->
  exists batch u,
    Outbox.posts w2 true (V2.monitorarMudancas w1 true f) = [batch] /\
    In u batch /\ sku u = s.
Proof.
  intros Hw Hr Ha Hq Hp Hl Hcode Hs Hne Ht Hlt.
  rewrite monitorarMudancas_advances, Ha.
  unfold Outbox.posts. cbn [negb].
  assert (E : V2.getLastSyncTime (V2.clock_default w2)
                (V2.updateLastSyncTime (V2.clock_start w1) f)
              = Some (V2.clock_start w1)).
  { unfold V2.updateLastSyncTime, V2.getLastSyncTime. rewrite Hw. cbn.
    now rewrite Hr. }
  rewrite E, Hq.
  assert (Hu : In (aggregate (key (p, l)) (V2.matching (V2.clock_start w1) db))
                 (V2.detect (V2.clock_start w1) db)).
  { apply DetectFacts.in_select_grouped. exists (p, l). split; [|reflexivity].
    apply filter_In. split; [apply DetectFacts.in_joined; auto|].
    apply andb_true_iff. split.
    - unfold V2.changed_since. cbn [fst]. rewrite Ht. now apply Z.ltb_lt.
    - exact (proj1 (proj2 (DetectFacts.has_sku_key p l s) (conj Hs Hne))). }
  destruct (V2.detect (V2.clock_start w1) db) as [|x rest] eqn:Ed;
    [contradiction|].
  cbn [List.length Nat.ltb Nat.leb].
  exists (x :: rest), (aggregate (key (p, l)) (V2.matching (V2.clock_start w1) db)).
  split; [reflexivity|]. split; [exact Hu|].
  cbn [sku aggregate].
  exact (proj2 (proj2 (DetectFacts.has_sku_key p l s) (conj Hs Hne))).
Qed.

Lemma change_after_cycle_start_is_posted_next_example :
  exists batch u,
    Outbox.posts second_cycle true
      (V2.monitorarMudancas first_cycle true (SyncTerms.healthy None))
    = [batch] /\
    In u batch /\ sku u = "789A".
Proof.
  assert (Hne : "789A" <> "") by discriminate.
  assert (Hlt : V2.clock_start first_cycle < 2000) by (cbn; lia).
  exact
    (change_after_cycle_start_is_posted_next first_cycle second_cycle
       (SyncTerms.healthy None) DetectTerms.two_products
       {| P_CODIGO := 1; P_CBARRA := Some "789A"; P_NOME := "CAFE";
          P_PCO_VENDA := 100000; P_DATA_ALTERACAO := Some 2000 |}
       {| L_CODIGO := 1; L_EST_ATUAL := 7; L_PCO_VENDA := 100000 |}
       "789A" 2000
       eq_refl eq_refl eq_refl eq_refl
       (or_introl eq_refl) (or_introl eq_refl) eq_refl eq_refl Hne eq_refl Hlt).
Defined.

(** *** The event loop *)

Lemma in_remove_nth {A : Type} (x : A) (l : list A) : forall i : nat,
  In x (remove_nth i l) -> In x l.
Proof.
  induction l as [|y l IH]; intros [|i] H; cbn in *; auto.
  destruct H as [-> | H]; [now left|]. right. eauto.
Qed.

Lemma in_replace_nth {A : Type} (x y : A) (l : list A) : forall i : nat,
  In x (replace_nth i y l) -> x = y \/ In x l.
Proof.
  induction l as [|z l IH]; intros [|i] H; cbn in *; auto.
  - destruct H as [<- | H]; auto.
  - destruct H as [-> | H]; [right; now left|].
    destruct (IH i H); auto.
Qed.

Lemma ticked_more (es : list V2.event) (e : V2.event) (t : Z) :
  ticked es t -> ticked (es ++ [e]) t.
Proof. intros [t0 H]. exists t0. apply in_or_app. now left. Qed.

Lemma update_written (date : Z) (f : fs) :
  cursor_file (V2.updateLastSyncTime date f) = cursor_file f \/
  cursor_file (V2.updateLastSyncTime date f)
  = Some (Parses (cursor_document date)).
Proof. unfold V2.updateLastSyncTime. destruct (writable f); auto. Qed.

Lemma written_by_ticks_step (f0 : fs) (es : list V2.event) (a : V2.agent)
  (e : V2.event) :
  written_by_ticks f0 es a -> written_by_ticks f0 (es ++ [e]) (V2.step a e).
Proof.
  intros [Hc Hf].
  assert (Hc' : cursor_file (V2.disk a) = cursor_file f0 \/
                exists t, ticked (es ++ [e]) t /\
                          cursor_file (V2.disk a)
                          = Some (Parses (cursor_document t))).
  { destruct Hc as [Hc | (t & Ht & Hc)]; [now left|].
    right. exists t. split; [now apply ticked_more|exact Hc]. }
  assert (Hf' : forall s, In s (V2.in_flight a) ->
                          ticked (es ++ [e]) (start_of s)).
  { intros s Hs. apply ticked_more. now apply Hf. }
  assert (Hupd : forall s, In s (V2.in_flight a) ->
            cursor_file (V2.updateLastSyncTime (start_of s) (V2.disk a))
            = cursor_file f0 \/
            exists t, ticked (es ++ [e]) t /\
              cursor_file (V2.updateLastSyncTime (start_of s) (V2.disk a))
              = Some (Parses (cursor_document t))).
  { intros s Hs.
    destruct (update_written (start_of s) (V2.disk a)) as [E | E];
      rewrite E; [exact Hc'|].
    right. exists (start_of s). split; [now apply Hf'|reflexivity]. }
  destruct e as [t0 t1|i answer|i answer]; cbn [V2.step].
  - destruct (V2.connected a); cbn [negb]; [|now split].
    split; [exact Hc'|]. cbn [V2.in_flight]. intros s Hs.
    apply in_app_or in Hs. destruct Hs as [Hs | [<- | []]]; [now apply Hf'|].
    exists t0. apply in_or_app. right. now left.
  - destruct (nth_error (V2.in_flight a) i) as [[lc nt|nt b]|] eqn:En;
      [|now split|now split].
    pose proof (nth_error_In _ _ En) as Hin.
    destruct answer as [rows|message].
    + destruct (0 <? List.length rows)%nat.
      * split; [exact Hc'|]. cbn [V2.in_flight]. intros s Hs.
        apply in_replace_nth in Hs. destruct Hs as [-> | Hs]; [|now apply Hf'].
        exact (Hf' _ Hin).
      * split; [exact (Hupd _ Hin)|]. cbn [V2.in_flight]. intros s Hs.
        apply in_remove_nth in Hs. now apply Hf'.
    + split; [exact Hc'|]. cbn [V2.in_flight]. intros s Hs.
      apply in_remove_nth in Hs. now apply Hf'.
  - destruct (nth_error (V2.in_flight a) i) as [[lc nt|nt b]|] eqn:En;
      [now split| |now split].
    pose proof (nth_error_In _ _ En) as Hin.
    destruct (axios_resolves answer).
    + split; [exact (Hupd _ Hin)|]. cbn [V2.in_flight]. intros s Hs.
      apply in_remove_nth in Hs. now apply Hf'.
    + split; [exact Hc'|]. cbn [V2.in_flight]. intros s Hs.
      apply in_remove_nth in Hs. now apply Hf'.
Qed.

Lemma written_by_ticks_run (f0 : fs) (connected : bool) (es : list V2.event) :
  written_by_ticks f0 es
    (V2.run {| V2.connected := connected; V2.disk := f0; V2.in_flight := [] |}
       es).
Proof.
  induction es as [|e es IH] using rev_ind.
  - split; [now left|]. intros s [].
  - unfold V2.run in *. rewrite fold_left_app. cbn [fold_left].
    now apply written_by_ticks_step.
Qed.

(** Whatever the ticks and the completions, in whatever order: the
    event loop of variant 2 leaves in [cursor.json] what was there when
    it started, or the start time of one of its ticks; it never writes
    any other time. *)
Theorem cursor_is_a_tick_start
  (f0 : fs) (connected : bool) (es : list V2.event) :
  let a := V2.run {| V2.connected := connected; V2.disk := f0;
                     V2.in_flight := [] |} es in
  cursor_file (V2.disk a) = cursor_file f0 \/
  exists t0 t1, In (V2.Tick t0 t1) es /\
                cursor_file (V2.disk a) = Some (Parses (cursor_document t1)).
Proof.
  cbn zeta. destruct (written_by_ticks_run f0 connected es) as [H _].
  destruct H as [H | (t & (t0 & Ht) & H)]; [now left|].
  right. now exists t0, t.
Qed.

(** Cycles that overlap write the cursor in the order they finish, not
    in the order they started: when the second of two ticks finishes
    first, the cursor is its start time, and then goes back to the
    start time of the first. *)
Theorem overlapping_cycles_move_cursor_back
  (f : fs) (t0 t1 t0' t1' : Z) :
  writable f = true ->
  let a := {| V2.connected := true; V2.disk := f; V2.in_flight := [] |} in
  cursor_file
    (V2.disk (V2.run a [V2.Tick t0 t1; V2.Tick t0' t1';
                        V2.QueryDone 1 (Recordset [])]))
  = Some (Parses (cursor_document t1')) /\
  cursor_file
    (V2.disk (V2.run a [V2.Tick t0 t1; V2.Tick t0' t1';
                        V2.QueryDone 1 (Recordset []);
                        V2.QueryDone 0 (Recordset [])]))
  = Some (Parses (cursor_document t1)).
Proof.
  intros Hw. cbn. unfold V2.updateLastSyncTime. rewrite Hw. cbn.
  split; reflexivity.
Qed.

Lemma overlapping_cycles_move_cursor_back_example :
  cursor_file
    (V2.disk
       (V2.run {| V2.connected := true; V2.disk := SyncTerms.healthy None;
                  V2.in_flight := [] |}
          [V2.Tick 100000 100000; V2.Tick 105000 105000;
           V2.QueryDone 1 (Recordset []); V2.QueryDone 0 (Recordset [])]))
  = Some (Parses (cursor_document 100000)).
Proof.
  exact (proj2 (overlapping_cycles_move_cursor_back (SyncTerms.healthy None)
                  100000 100000 105000 105000 eq_refl)).
Defined.

End FlowFacts.

(** ** The routes of variant 2 behind the hook *)

Module RouteFacts.
Import Store Tx Orders Routes RouteTerms.

Lemma onRequest_passes (token : option string) (r : request) :
  onRequest token r = None ->
  line r = GetHealth \/ authorization r = Some (bearer token).
Proof.
  unfold onRequest. destruct r as [ln auth]; cbn [line authorization].
  destruct ln; auto;
    (destruct auth as [h|]; [|discriminate]);
    destruct (String.eqb_spec h ""); cbn [orb]; try discriminate;
    destruct (String.eqb_spec h (bearer token)); cbn [negb];
    try discriminate; intros _; right; now subst.
Qed.

(** The hook lets a request through in two cases only: the route is
    /health, or the Authorization header is, character for character,
    "Bearer " followed by AGENT_TOKEN ("Bearer undefined" when the
    variable is not set).  A missing or empty header never passes. *)
Theorem onRequest_passes_exactly (token : option string) (r : request) :
  onRequest token r = None <->
  line r = GetHealth \/ authorization r = Some (bearer token).
Proof.
  split; [apply onRequest_passes|].
  unfold onRequest. destruct r as [ln auth]; cbn [line authorization].
  intros [-> | ->]; [reflexivity|].
  destruct ln; auto; rewrite String.eqb_refl; reflexivity.
Qed.

(** A request reaches the store (a statement sent) only if it carries
    the token and finds the pool connected, and is a stock lookup, which
    sends its one SELECT outside any transaction, or an order that
    passes the validation, which is then answered 200 or 422.  The
    durable tables change only under an order answered 200. *)
Theorem serve_reaches_store_only_with_token
  (token : option string) (pool_connected : bool) (fault : option string)
  (r : request) (c : conn) :
  (snd (serve token pool_connected fault r c) <> c ->
   authorization r = Some (bearer token) /\ pool_connected = true /\
   ((exists sku,
        line r = GetChecarEstoque sku /\
        snd (serve token pool_connected fault r c) = Tx.sent (SelectEstoque sku) c) \/
    (exists b,
        line r = PostCriarPedido b /\ V2.invalid b = false /\
        (status (fst (serve token pool_connected fault r c)) = 200 \/
         status (fst (serve token pool_connected fault r c)) = 422)))) /\
  (durable (snd (serve token pool_connected fault r c)) <> durable c ->
   exists b,
     line r = PostCriarPedido b /\ V2.invalid b = false /\
     status (fst (serve token pool_connected fault r c)) = 200).
Proof.
  unfold serve. destruct (onRequest token r) as [denied|] eqn:E.
  { split; intros H; now contradiction H. }
  destruct (onRequest_passes _ _ E) as [Hh | Ha].
  { rewrite Hh. split; intros H; now contradiction H. }
  destruct (line r) as [| sk | b].
  - split; intros H; now contradiction H.
  - destruct pool_connected.
    + split; [|intros H; now contradiction H].
      intros _. split; [exact Ha|]. split; [reflexivity|].
      left. now exists sk.
    + split; intros H; now contradiction H.
  - destruct (V2.criar_pedido pool_connected b c) as [answer c'] eqn:Er.
    cbn [fst snd status].
    assert (Hv : c' <> c ->
                 pool_connected = true /\ V2.invalid b = false /\
                 (code answer = 200 \/ code answer = 422)).
    { unfold V2.criar_pedido, V2.invalid in *.
      destruct pool_connected; cbn [negb] in Er;
        [|inversion Er; intros H; now contradiction H].
      destruct (cliente b) as [cli|];
        [|inversion Er; intros H; now contradiction H].
      destruct (itens b) as [[|it rest]|];
        try (inversion Er; intros H; now contradiction H).
      intros _. split; [reflexivity|]. split; [reflexivity|].
      destruct (V2.try_block cli (it :: rest) c) as [[id|message] c1];
        inversion Er; cbn; auto. }
    split.
    + intros H. destruct (Hv H) as (-> & Hi & Hs).
      split; [exact Ha|]. split; [reflexivity|]. right. now exists b.
    + intros H.
      assert (Hc : c' <> c) by (intros ->; now apply H).
      destruct (Hv Hc) as (-> & Hi & Hs).
      exists b. split; [reflexivity|]. split; [exact Hi|].
      destruct Hs as [Hs | Hs]; [exact Hs|]. exfalso. apply H.
      assert (Hno : code (fst (answer, c')) <> 200) by (cbn; lia).
      exact (proj1 (OrderFacts.failed_inversion true b c (answer, c')
                      (or_intror (eq_sym Er)) Hno)).
Qed.

Lemma serve_reaches_store_only_with_token_example :
  authorization order_request = Some (bearer (Some "s3cret")) /\ true = true /\
  ((exists sku,
       line order_request = GetChecarEstoque sku /\
       snd (serve (Some "s3cret") true None order_request OrderTerms.shop)
       = Tx.sent (SelectEstoque sku) OrderTerms.shop) \/
   (exists b,
       line order_request = PostCriarPedido b /\ V2.invalid b = false /\
       (status (fst (serve (Some "s3cret") true None order_request
                       OrderTerms.shop)) = 200 \/
        status (fst (serve (Some "s3cret") true None order_request
                       OrderTerms.shop)) = 422))).
Proof.
  apply (proj1 (serve_reaches_store_only_with_token
                  (Some "s3cret") true None order_request OrderTerms.shop)).
  intros H. apply (f_equal (fun k => List.length (log k))) in H.
  vm_compute in H. discriminate H.
Defined.

End RouteFacts.

(** ** The ledger of orders *)

Module LedgerFacts.
Import JS Store Tx Orders OrderTerms Routes RouteTerms.

Lemma inside_lookups (l : list string) : Forall inside (map SelectProduto l).
Proof. induction l; cbn; constructor; cbn; auto. Qed.

Lemma inside_lines (l : list orcpersoni) : Forall inside (map InsertOrcpersoni l).
Proof. induction l; cbn; constructor; cbn; auto. Qed.

(** A handler replies 200 with the id of the order, on a connected pool,
    or it replies another status with an error. *)
Lemma reply_shape (v : Concurrent.variant) (pool_connected : bool) (b : body)
  (c : conn) :
  (pool_connected = true /\
   exists id,
     fst (handler v pool_connected b c)
     = {| code := 200; sent_body := Created id |}) \/
  (code (fst (handler v pool_connected b c)) <> 200 /\
   exists e d, sent_body (fst (handler v pool_connected b c)) = Failed e d).
Proof.
  destruct pool_connected.
  2:{ right. destruct v; cbn; split; [discriminate|eauto| discriminate|eauto]. }
  destruct v; unfold handler.
  - unfold V1.criar_pedido. cbn [negb].
    destruct (V1.try_block (cliente b) (itens b) c) as [[id|message] c'].
    + left. split; [reflexivity|]. now exists id.
    + right. cbn. split; [discriminate|eauto].
  - unfold V2.criar_pedido. cbn [negb].
    destruct (cliente b) as [cli|];
      [|right; cbn; split; [discriminate|eauto]].
    destruct (itens b) as [[|it rest]|];
      try (right; cbn; split; [discriminate|eauto]).
    destruct (V2.try_block cli (it :: rest) c) as [[id|message] c'].
    + left. split; [reflexivity|]. now exists id.
    + right. cbn. split; [discriminate|eauto].
Qed.

Lemma handler_variants (v : Concurrent.variant) (pool_connected : bool)
  (b : body) (c : conn) :
  handler v pool_connected b c = V1.criar_pedido pool_connected b c \/
  handler v pool_connected b c = V2.criar_pedido pool_connected b c.
Proof. destruct v; [now left|now right]. Qed.

Lemma transactional_committed (lk : bool) (mk : Z -> orcperson) (id : Z)
  (its : list item) (rs : list resolved) (c : conn) :
  transactional c
    ({| code := 200; sent_body := Created id |}, committed lk mk id its rs c).
Proof.
  unfold transactional. cbn. split; [reflexivity|]. split; [reflexivity|].
  eexists. split; [reflexivity|].
  assert (Hin : Forall inside
                  (map SelectProduto (map sku its)
                   ++ SelectNextIds lk
                   :: InsertOrcperson
                        (mk (getdate c (List.length (log c) + List.length its + 2)))
                   :: map InsertOrcpersoni
                        (line_rows (types c) id 1 rs (getdate c)
                           (S (List.length (log c) + List.length its + 2))))).
  { apply Forall_app. split; [apply inside_lookups|].
    constructor; [exact I|]. constructor; [exact I|]. apply inside_lines. }
  split.
  - intros [E | H]; [discriminate E|].
    apply in_app_or in H. destruct H as [H | [E | [E | H]]];
      try discriminate.
    + apply in_map_iff in H. destruct H as (x & E & _). discriminate E.
    + apply in_app_or in H. destruct H as [H | [E | []]]; [|discriminate E].
      apply in_map_iff in H. destruct H as (x & E & _). discriminate E.
  - split.
    + intros _. split; [reflexivity|]. eexists. split; [|exact Hin].
      rewrite <- app_assoc. reflexivity.
    + intros H. now contradiction H.
Qed.

(** In both variants, whatever the request, the state of the pool, the
    answers of the store and what the driver accepts: the handler writes
    neither PRODUTOS nor PRODLOJAS and sends no rollback; with a 200 it
    sent [begin], statements and [commit], and no transaction is open;
    with any other reply the durable tables are as they were, and either
    nothing was sent or [begin] was, and then, if [begin] was answered,
    the handler returns with its transaction open. *)
Theorem order_request_protocol
  (v : Concurrent.variant) (pool_connected : bool) (b : body) (c : conn) :
  transactional c (handler v pool_connected b c).
Proof.
  destruct (reply_shape v pool_connected b c) as [[-> [id E]] | [Hno _]].
  - destruct (OrderFacts.created_inversion b c id (handler v true b c)
                (handler_variants v true b c) E)
      as (its & rs & lk & nm & hd & _ & _ & _ & _ & _ & _ & Es).
    rewrite (surjective_pairing (handler v true b c)), E, Es.
    apply transactional_committed.
  - destruct (OrderFacts.failed_inversion pool_connected b c
                (handler v pool_connected b c)
                (handler_variants v pool_connected b c) Hno)
      as [D Hl].
    unfold transactional. rewrite D. split; [reflexivity|].
    split; [reflexivity|].
    destruct Hl as [Ec | (rest & L & R & A)].
    + exists []. rewrite Ec, app_nil_r. split; [reflexivity|].
      split; [intros []|]. split; [intros H; now contradiction Hno|].
      intros _. split; [reflexivity|]. now left.
    + exists (Begin :: rest). split; [exact L|].
      split; [intros [H | H]; [discriminate H|now apply R]|].
      split; [intros H; now contradiction Hno|].
      intros _. split; [reflexivity|]. right. now exists rest.
Qed.

(** *** Identifiers over a session *)

Lemma sql_max_snoc (col : list (option Z)) (x : Z) :
  sql_max (col ++ [Some x])
  = Some (match sql_max col with
          | Some a => Z.max a x
          | None => x
          end).
Proof.
  unfold sql_max. rewrite fold_left_app. cbn.
  now destruct (fold_left _ col None).
Qed.

Lemma next_ids_snoc (rows : list orcperson) (hdr : orcperson) :
  O_CODIGO hdr = Some (fst (next_ids rows)) ->
  O_SEQUENCIA hdr = Some (snd (next_ids rows)) ->
  next_ids (rows ++ [hdr]) = (fst (next_ids rows) + 1, snd (next_ids rows) + 1).
Proof.
  intros Hc Hs. unfold next_ids in *. cbn [fst snd] in *.
  rewrite !map_app. cbn [map]. rewrite Hc, Hs, !sql_max_snoc.
  destruct (sql_max (map O_CODIGO rows)), (sql_max (map O_SEQUENCIA rows));
    cbn [ISNULL]; f_equal; lia.
Qed.

Lemma counting_S (first : Z) (n : nat) :
  counting first (S n) = first :: counting (first + 1) n.
Proof.
  unfold counting. cbn [seq map]. f_equal; [lia|].
  rewrite <- seq_shift, map_map. apply map_ext. intros k. lia.
Qed.

(** One request: it fails and the durable tables stay, or it reports the
    id of the allocation query and appends one header with that id and
    sequence. *)
Lemma handler_step (v : Concurrent.variant) (pool_connected : bool) (b : body)
  (c : conn) :
  let r := handler v pool_connected b c in
  let ids := next_ids (ORCPERSON (durable c)) in
  (created_ids [fst r] = [] /\ durable (snd r) = durable c) \/
  (created_ids [fst r] = [fst ids] /\
   exists hdr, ORCPERSON (durable (snd r)) = ORCPERSON (durable c) ++ [hdr] /\
               O_CODIGO hdr = Some (fst ids) /\
               O_SEQUENCIA hdr = Some (snd ids)).
Proof.
  cbn zeta.
  destruct (reply_shape v pool_connected b c) as [[-> [id E]] | [Hno (e & d & Eb)]].
  - right.
    destruct (OrderFacts.created_inversion b c id (handler v true b c)
                (handler_variants v true b c) E)
      as (its & rs & lk & nm & hd & _ & _ & -> & Hhd & _ & _ & Es).
    rewrite E, Es. split; [reflexivity|]. eexists.
    cbn [committed durable with_lines with_header ORCPERSON].
    split; [reflexivity|]. destruct Hhd as [-> | ->]; split; reflexivity.
  - left. split.
    + unfold created_ids. cbn. now rewrite Eb.
    + exact (proj1 (OrderFacts.failed_inversion pool_connected b c
                      (handler v pool_connected b c)
                      (handler_variants v pool_connected b c) Hno)).
Qed.

(** Order requests served one after the other, by either variant, with
    the pool connected or not, each of them created (200), refused by
    the validation (400) or refused for the pool (503), so that none
    leaves a transaction behind: the ids reported to the callers are
    consecutive, starting at the id the first allocation gives, and a
    refused request uses up no id.  The headers appended to ORCPERSON
    are those of the created orders, in order, and their sequences are
    consecutive as well. *)
Theorem session_ids_consecutive
  (reqs : list (Concurrent.variant * bool * body)) (c : conn) :
  Forall (fun a => code a = 200 \/ code a = 400 \/ code a = 503)
    (fst (session reqs c)) ->
  created_ids (fst (session reqs c))
  = counting (fst (next_ids (ORCPERSON (durable c))))
      (List.length (created_ids (fst (session reqs c)))) /\
  exists hdrs,
    ORCPERSON (durable (snd (session reqs c))) = ORCPERSON (durable c) ++ hdrs /\
    map O_CODIGO hdrs = map Some (created_ids (fst (session reqs c))) /\
    map O_SEQUENCIA hdrs
    = map Some
        (counting (snd (next_ids (ORCPERSON (durable c))))
           (List.length (created_ids (fst (session reqs c))))).
Proof.
  intros _. revert c.
  induction reqs as [|[[v pc] b] rest IH]; intros c.
  - cbn. split; [reflexivity|]. exists []. now rewrite app_nil_r.
  - cbn [session].
    pose proof (handler_step v pc b c) as Hs. cbn zeta in Hs.
    destruct (handler v pc b c) as [answer c1]. cbn [fst snd] in Hs.
    specialize (IH c1).
    destruct (session rest c1) as [answers c2]. cbn [fst snd] in *.
    replace (created_ids (answer :: answers))
      with (created_ids [answer] ++ created_ids answers)
      by (unfold created_ids; cbn [flat_map]; now rewrite app_nil_r).
    destruct Hs as [[E Hd] | [E (hdr & Ho & Hc & Hq)]]; rewrite E.
    + rewrite Hd in IH. exact IH.
    + cbn [app List.length]. rewrite !counting_S.
      destruct IH as [Hids (hdrs & H1 & H2 & H3)].
      rewrite Ho in Hids, H3, H1.
      rewrite (next_ids_snoc _ _ Hc Hq) in Hids, H3. cbn [fst snd] in Hids, H3.
      split; [now rewrite <- Hids|].
      exists (hdr :: hdrs). rewrite H1, <- app_assoc. split; [reflexivity|].
      cbn [map]. rewrite Hc, Hq, H2, H3. split; reflexivity.
Qed.

Lemma session_ids_consecutive_example :
  created_ids
    (fst (session
            [ (Concurrent.Part000, true,
               {| cliente := Some ana;
                  itens := Some [ {| sku := "A"; qtd := 2%float;
                                     preco := 10%float |} ] |});
              (Concurrent.Part000, true,
               {| cliente := None; itens := Some [] |});
              (Concurrent.Agente, true,
               {| cliente := Some ana;
                  itens := Some [ {| sku := "B"; qtd := 1%float;
                                     preco := 5%float |} ] |}) ]
            shop))
  = [1; 2].
Proof.
  assert (F : Forall (fun a => code a = 200 \/ code a = 400 \/ code a = 503)
                (fst (session
                        [ (Concurrent.Part000, true,
                           {| cliente := Some ana;
                              itens := Some [ {| sku := "A"; qtd := 2%float;
                                                 preco := 10%float |} ] |});
                          (Concurrent.Part000, true,
                           {| cliente := None; itens := Some [] |});
                          (Concurrent.Agente, true,
                           {| cliente := Some ana;
                              itens := Some [ {| sku := "B"; qtd := 1%float;
                                                 preco := 5%float |} ] |}) ]
                        shop))).
  { vm_compute.
    repeat (apply Forall_cons;
            [first [left; reflexivity | right; left; reflexivity
                   | right; right; reflexivity]|]).
    apply Forall_nil. }
  exact
    (proj1
       (session_ids_consecutive
          [ (Concurrent.Part000, true,
             {| cliente := Some ana;
                itens := Some [ {| sku := "A"; qtd := 2%float;
                                   preco := 10%float |} ] |});
            (Concurrent.Part000, true,
             {| cliente := None; itens := Some [] |});
            (Concurrent.Agente, true,
             {| cliente := Some ana;
                itens := Some [ {| sku := "B"; qtd := 1%float;
                                   preco := 5%float |} ] |}) ]
          shop F)).
Defined.

End LedgerFacts.

(** ** The start of the process *)

Module BootFacts.
Import Boot Routes RouteTerms.

Lemma one_attempt_step (p : process) (e : event) :
  one_attempt p -> one_attempt (step p e).
Proof.
  unfold one_attempt, step, connect_ends, retry_fires.
  intros H. destruct (exited p); [exact H|].
  destruct e as [ok|].
  - destruct (connecting p) as [|n] eqn:En; [rewrite En; exact H|].
    destruct ok; cbn; destruct H as [[Hp Hn] | [Hp Hn]]; try lia.
    + left. split; [reflexivity|lia].
    + right. split; [exact Hp|lia].
  - destruct (retries p) as [|n] eqn:En; [rewrite En; exact H|].
    cbn. destruct H as [[Hp Hn] | [Hp Hn]]; try lia.
    right. split; [exact Hp|lia].
Qed.

(** From [start] on, whatever connection attempts end and retries fire:
    the pool is set and no attempt or retry is pending, or the pool is
    not set and exactly one attempt is either running or scheduled.
    The agent never gives up reconnecting, never runs two attempts side
    by side, and stops retrying once connected. *)
Theorem one_connection_attempt_at_a_time
  (connect_ok listen_ok : bool) (es : list event) :
  let p := run (start connect_ok listen_ok) es in
  (pool p = Some true /\ (connecting p + retries p = 0)%nat) \/
  (pool p = None /\ (connecting p + retries p = 1)%nat).
Proof.
  cbn zeta. change (one_attempt (run (start connect_ok listen_ok) es)).
  induction es as [|e es IH] using rev_ind.
  - destruct connect_ok, listen_ok; cbn; unfold one_attempt; cbn; auto.
  - unfold run in *. rewrite fold_left_app. cbn [fold_left].
    now apply one_attempt_step.
Qed.

Lemma pool_stays_unset (es : list event) : forall p : process,
  pool p = None -> ~ In (ConnectEnds true) es -> pool (run p es) = None.
Proof.
  induction es as [|e es IH]; intros p Hp Hn; [exact Hp|].
  cbn [run fold_left]. apply IH.
  - unfold step, connect_ends, retry_fires. destruct (exited p); [exact Hp|].
    destruct e as [[|]|].
    + contradiction Hn. now left.
    + now destruct (connecting p).
    + now destruct (retries p).
  - intros H. apply Hn. now right.
Qed.

(** When the first connection fails, then as long as no later attempt
    succeeds the agent stays offline: /health answers 200 with
    "disconnected", every other request that passes the hook is
    answered 503, and nothing is sent to the store. *)
Theorem offline_until_connected
  (listen_ok : bool) (es : list event) (token fault : option string)
  (r : request) (c : Tx.conn) :
  ~ In (ConnectEnds true) es ->
  onRequest token r = None ->
  serve token (pool_connected (run (start false listen_ok) es)) fault r c
  = (offline (line r), c).
Proof.
  intros Hn Hr.
  assert (Hp : pool_connected (run (start false listen_ok) es) = false).
  { unfold pool_connected. rewrite pool_stays_unset; auto.
    now destruct listen_ok. }
  rewrite Hp. unfold serve. rewrite Hr.
  destruct (line r); reflexivity.
Qed.

Lemma offline_until_connected_example :
  serve (Some "s3cret")
    (pool_connected
       (run (start false true) [RetryFires; ConnectEnds false; RetryFires]))
    None order_request OrderTerms.shop
  = (offline (line order_request), OrderTerms.shop).
Proof.
  apply (offline_until_connected true
           [RetryFires; ConnectEnds false; RetryFires]
           (Some "s3cret") None order_request OrderTerms.shop).
  - intros [H | [H | [H | []]]]; discriminate H.
  - reflexivity.
Defined.

End BootFacts.
